(** * The retrieval engine of backend/rag_engine.py

    A shallow embedding of [OptimizedTFIDF] and [FastSimpleRAGEngine]:
    the tokenizer, the TF-IDF vectorizer with its caches, the chunker,
    index construction and similarity search (Part I), followed by the
    properties the specification states about them (Part II).

    Conventions.
    - Python [str] is [string]: a character is one of the code points
      U+0000 to U+00FF, classified and lowercased as Python does it
      (Unicode, not ASCII only); a text with a character beyond U+00FF
      has no counterpart in the model.  A character above U+007F is
      written ["233"%char], by its decimal code.
    - Python [float] is a type [F] with the operations the source uses
      (class [PyFloat]); [math.log] is kept apart (class [PyLog]).  Two
      instances are given: binary64 floats of the kernel, on which the
      arithmetic of the source runs bit for bit, and exact rationals with
      rational stand-ins for [math.sqrt] and [math.log].
    - A [dict] is an association list in insertion order, as iteration
      order is observable in the eviction code.
    - A call either returns or raises: [Res A].  The methods of the
      engine catch what is raised inside them, as their [try] blocks do.
    - The state is passed explicitly: [World] holds the fields of the
      engine and of its vectorizer, the memo table that [lru_cache]
      keeps for [tokenize], the SQLite table and the files under cache/.
      Statements on the connection and writes of files are taken to
      succeed; logging is left out. *)

From Stdlib Require Import String Ascii List ZArith QArith Bool Lia Floats.
From Stdlib Require Import Sorting.Sorted Permutation DecimalString.
Import ListNotations.

Set Warnings "-abstract-large-number".

Local Open Scope string_scope.
Local Open Scope list_scope.

(* ================================================================== *)
(** * Part I: the embedding *)
(* ================================================================== *)

(* ------------------------------------------------------------------ *)
(** ** Results of calls *)

Inductive exn : Type :=
| KeyError
| IndexError
| ValueError
| ZeroDivisionError.

Inductive Res (A : Type) : Type :=
| Normal (a : A)
| Raise (e : exn).

Arguments Normal {A} a.
Arguments Raise {A} e.

Definition bind {A B : Type} (r : Res A) (k : A -> Res B) : Res B :=
  match r with
  | Normal a => k a
  | Raise e => Raise e
  end.

Notation "x <- c ;; k" := (bind c (fun x => k))
  (at level 61, c at next level, right associativity).

Definition raised {A : Type} (r : Res A) : bool :=
  match r with Normal _ => false | Raise _ => true end.

(* ------------------------------------------------------------------ *)
(** ** Floats *)

Class PyFloat (F : Type) : Type := {
  f_zero : F;                    (* 0.0 *)
  f_threshold : F;               (* the literal 0.01 *)
  f_add : F -> F -> F;
  f_mul : F -> F -> F;
  f_div : F -> F -> F;           (* quotient by a non-zero divisor *)
  f_truediv : nat -> nat -> F;   (* int / int, positive divisor *)
  f_sqrt : F -> F;               (* math.sqrt on a sum of squares *)
  f_eqb : F -> F -> bool;        (* == *)
  f_ltb : F -> F -> bool         (* < *)
}.

Class PyLog (F : Type) : Type := {
  f_log : F -> F                 (* math.log on a positive argument *)
}.

(** [x == x]: false of NaN only. *)
Definition is_number {F} `{PyFloat F} (x : F) : bool := f_eqb x x.

(** What [sort] needs of [<] and [==]: a strict weak order on the
    floats that are numbers, as IEEE comparison is one.  NaN equals
    nothing, itself included, and lies below or above nothing. *)
Class PyFloatOrder (F : Type) `{PyFloat F} : Prop := {
  f_eqb_sym : forall x y, f_eqb x y = f_eqb y x;
  f_eqb_trans : forall x y z, f_eqb x y = true -> f_eqb y z = true -> f_eqb x z = true;
  f_ltb_eqb : forall x y, f_ltb x y = true -> f_eqb x y = false;
  f_ltb_trans : forall x y z, f_ltb x y = true -> f_ltb y z = true -> f_ltb x z = true;
  f_ltb_asym : forall x y, f_ltb x y = true -> f_ltb y x = false;
  f_ltb_number : forall x y, f_ltb x y = true -> is_number x = true /\ is_number y = true;
  f_ltb_total : forall x y,
    is_number x = true -> is_number y = true ->
    f_ltb x y = false -> f_ltb y x = false -> f_eqb x y = true;
  f_ltb_eqb_l : forall x y z, f_eqb x y = true -> f_ltb x z = f_ltb y z;
  f_ltb_eqb_r : forall x y z, f_eqb x y = true -> f_ltb z x = f_ltb z y
}.

(** [a / b] on floats raises on a zero divisor. *)
Definition py_div {F} `{PyFloat F} (a b : F) : Res F :=
  if f_eqb b f_zero then Raise ZeroDivisionError else Normal (f_div a b).

(** *** Binary64 *)

#[export] Instance Binary64 : PyFloat float := {|
  f_zero := 0%float;
  f_threshold := 0x1.47ae147ae147bp-7%float;   (* the double nearest 0.01 *)
  f_add := PrimFloat.add;
  f_mul := PrimFloat.mul;
  f_div := PrimFloat.div;
  f_truediv := fun a b =>
    PrimFloat.div (PrimFloat.of_uint63 (Uint63.of_Z (Z.of_nat a)))
                  (PrimFloat.of_uint63 (Uint63.of_Z (Z.of_nat b)));
  f_sqrt := PrimFloat.sqrt;
  f_eqb := PrimFloat.eqb;
  f_ltb := PrimFloat.ltb
|}.

(** [math.log] is not among the operations of the kernel's floats.
    Stand-in, to run examples with: the first term [2 (x-1)/(x+1)] of
    its series, in binary64 arithmetic. *)
#[export] Instance Binary64Log : PyLog float := {|
  f_log := fun x =>
    PrimFloat.div (PrimFloat.mul 2 (PrimFloat.sub x 1)) (PrimFloat.add x 1)
|}.

(** *** Exact rationals *)

(** Stand-in for [math.sqrt]: the integer square root at six decimals. *)
Definition Qsqrt6 (q : Q) : Q :=
  Z.sqrt (Qnum q * 1000000000000 / Zpos (Qden q)) # 1000000.

(** Stand-in for [math.log]: the first term [2 (x-1)/(x+1)] of its
    series, zero at 1 and of the sign of [x - 1] for positive [x]. *)
Definition Qlog1 (q : Q) : Q :=
  if Qeq_bool (q + 1) 0 then 0 else (2 * (q - 1) / (q + 1))%Q.

#[export] Instance Rational : PyFloat Q := {|
  f_zero := 0%Q;
  f_threshold := (1 # 100)%Q;
  f_add := Qplus;
  f_mul := Qmult;
  f_div := Qdiv;
  f_truediv := fun a b => Qred (Z.of_nat a # Pos.of_nat b);
  f_sqrt := Qsqrt6;
  f_eqb := Qeq_bool;
  f_ltb := fun x y => negb (Qle_bool y x)
|}.

#[export] Instance RationalLog : PyLog Q := {| f_log := Qlog1 |}.

(* ------------------------------------------------------------------ *)
(** ** Dictionaries in insertion order *)

Section Dict.
Variables (K V : Type) (keq : K -> K -> bool).

Definition dict := list (K * V).

Fixpoint dict_get (d : dict) (k : K) : option V :=
  match d with
  | [] => None
  | (k', v) :: d' => if keq k k' then Some v else dict_get d' k
  end.

Definition dict_mem (d : dict) (k : K) : bool :=
  match dict_get d k with Some _ => true | None => false end.

(** [d[k] = v]: a present key keeps its place, a new one goes last. *)
Fixpoint dict_set (d : dict) (k : K) (v : V) : dict :=
  match d with
  | [] => [(k, v)]
  | (k', v') :: d' => if keq k k' then (k', v) :: d' else (k', v') :: dict_set d' k v
  end.

(** [del d[k]] for each of the first [n] keys, the oldest entries. *)
Definition dict_drop_oldest (n : nat) (d : dict) : dict := skipn n d.
End Dict.

Arguments dict_get {K V} keq d k.
Arguments dict_mem {K V} keq d k.
Arguments dict_set {K V} keq d k v.
Arguments dict_drop_oldest {K V} n d.

(* ------------------------------------------------------------------ *)
(** ** Characters and strings *)

Definition code (c : ascii) : N := N_of_ascii c.

Definition between (lo hi : N) (c : ascii) : bool :=
  ((lo <=? code c) && (code c <=? hi))%N.

(** The classes [[a-z]], [[A-Z]] and [[0-9]] of ASCII. *)
Definition is_lower (c : ascii) : bool := between 97 122 c.
Definition is_upper (c : ascii) : bool := between 65 90 c.
Definition is_digit (c : ascii) : bool := between 48 57 c.

(** The letters and numbers above U+007F, as [str.isalnum] has them:
    the ordinal indicators, the micro sign, the superscript digits, the
    vulgar fractions and the letters with diacritics (all of U+00C0 to
    U+00FF but the signs of multiplication and division). *)
Definition is_latin1_alnum (c : ascii) : bool :=
  (code c =? 170)%N || between 178 179 c || (code c =? 181)%N
  || between 185 186 c || between 188 190 c
  || between 192 214 c || between 216 246 c || between 248 255 c.

(** [\w] in a pattern on [str]: what [str.isalnum] accepts, and the
    underscore. *)
Definition is_word (c : ascii) : bool :=
  is_lower c || is_upper c || is_digit c || (code c =? 95)%N || is_latin1_alnum c.

(** [\s] and [str.isspace]: tab to carriage return, the four separators
    28 to 31, the space, the next-line control U+0085 and the no-break
    space U+00A0. *)
Definition is_space (c : ascii) : bool :=
  between 9 13 c || between 28 32 c || (code c =? 133)%N || (code c =? 160)%N.

(** The characters that [str.lower] changes: A to Z, and the capital
    letters U+00C0 to U+00DE but the multiplication sign; the lowercase
    letter lies 32 above. *)
Definition has_lowercase (c : ascii) : bool :=
  is_upper c || between 192 214 c || between 216 222 c.

Definition lower_char (c : ascii) : ascii :=
  if has_lowercase c then ascii_of_N (code c + 32) else c.

(** The letters above U+007F that the texts of the source hold. *)
Definition a_grave : string := String "224"%char EmptyString.
Definition a_circumflex : string := String "226"%char EmptyString.
Definition a_tilde : string := String "227"%char EmptyString.
Definition c_cedilla : string := String "231"%char EmptyString.
Definition e_acute : string := String "233"%char EmptyString.
Definition e_circumflex : string := String "234"%char EmptyString.
Definition o_tilde : string := String "245"%char EmptyString.
Definition u_acute : string := String "250"%char EmptyString.

(** [str.lower] *)
Fixpoint str_lower (s : string) : string :=
  match s with
  | EmptyString => EmptyString
  | String c s' => String (lower_char c) (str_lower s')
  end.

Definition head_char (s : string) : option ascii :=
  match s with EmptyString => None | String c _ => Some c end.

Definition is_word_opt (c : option ascii) : bool :=
  match c with Some c => is_word c | None => false end.

(* ------------------------------------------------------------------ *)
(** ** OptimizedTFIDF.tokenize

    [re.findall(r'\b[a-z]{2,}\b', text.lower())], the matcher written
    out: [\b] holds between a word character and a non-word character
    (or an end of the text); [[a-z]{2,}] is greedy and gives letters back
    one at a time. *)

(** [\b] between the character before ([None] at the start) and [rest]. *)
Definition word_boundary (prev : option ascii) (rest : string) : bool :=
  xorb (is_word_opt prev) (is_word_opt (head_char rest)).

(** [[a-z]{2,}\b] after [n] letters have been taken, the last being
    [prev]: take one more where possible, else (or when that fails
    further on) stop here if [n >= 2] and a boundary follows. *)
Fixpoint lower_run (n : nat) (prev : option ascii) (s : string) : option (string * string) :=
  let stop := if (2 <=? n)%nat && word_boundary prev s then Some (EmptyString, s) else None in
  match s with
  | String c s' =>
      if is_lower c then
        match lower_run (S n) (Some c) s' with
        | Some (tok, rest) => Some (String c tok, rest)
        | None => stop
        end
      else stop
  | EmptyString => stop
  end.

(** The whole pattern at one position. *)
Definition match_at (prev : option ascii) (s : string) : option (string * string) :=
  if word_boundary prev s then lower_run 0 prev s else None.

(** [findall]: scan left to right; after a match resume at its end
    ([skip] counts the characters of the match still to pass). *)
Fixpoint findall_from (skip : nat) (prev : option ascii) (s : string) : list string :=
  match s with
  | EmptyString => []
  | String c s' =>
      match skip with
      | S k => findall_from k (Some c) s'
      | O =>
          match match_at prev s with
          | Some (tok, _) => tok :: findall_from (String.length tok - 1) (Some c) s'
          | None => findall_from 0 (Some c) s'
          end
      end
  end.

Definition tokenize (text : string) : list string :=
  findall_from 0 None (str_lower text).

(* ------------------------------------------------------------------ *)
(** ** FastSimpleRAGEngine._optimized_chunk_text *)

Local Open Scope Z_scope.

Definition slen (s : string) : Z := Z.of_nat (String.length s).

(** A slice index brought into [0, len], as [text[i:j]] reads it. *)
Definition clip (len i : Z) : Z :=
  if i <? 0 then Z.max 0 (i + len) else Z.min i len.

(** [text[i:j]] *)
Definition py_slice (s : string) (i j : Z) : string :=
  let a := clip (slen s) i in
  let b := clip (slen s) j in
  substring (Z.to_nat a) (Z.to_nat (b - a)) s.

Fixpoint lstrip (s : string) : string :=
  match s with
  | String c s' => if is_space c then lstrip s' else s
  | EmptyString => EmptyString
  end.

Fixpoint rstrip (s : string) : string :=
  match s with
  | EmptyString => EmptyString
  | String c s' =>
      match rstrip s' with
      | EmptyString => if is_space c then EmptyString else String c EmptyString
      | r => String c r
      end
  end.

(** [str.strip] *)
Definition strip (s : string) : string := rstrip (lstrip s).

Definition is_sentence_punct (c : ascii) : bool :=
  ((code c =? 46) || (code c =? 33) || (code c =? 63))%N.   (* . ! ? *)

(** Where the scan for [[.!?]\s+] stands. *)
Inductive scan : Type :=
| Searching      (* no match under way *)
| AfterPunct     (* the previous character is one of . ! ? *)
| InSpaces.      (* a match is under way, inside its whitespace *)

(** [[m.end() for m in re.finditer(r'[.!?]\s+', text)]]; [pos] is the
    index of the head of [s]. *)
Fixpoint sentence_ends_from (st : scan) (pos : Z) (s : string) : list Z :=
  match s with
  | EmptyString => match st with InSpaces => [pos] | _ => [] end
  | String c s' =>
      let next := if is_sentence_punct c then AfterPunct else Searching in
      match st with
      | InSpaces =>
          if is_space c then sentence_ends_from InSpaces (pos + 1) s'
          else pos :: sentence_ends_from next (pos + 1) s'
      | AfterPunct =>
          if is_space c then sentence_ends_from InSpaces (pos + 1) s'
          else sentence_ends_from next (pos + 1) s'
      | Searching => sentence_ends_from next (pos + 1) s'
      end
  end.

Definition sentence_ends (text : string) : list Z :=
  sentence_ends_from Searching 0 text.

(** The [for sent_end in sentence_ends] loop: the last sentence end in
    the second half of the window wins. *)
Definition best_break (ends : list Z) (start chunk_size end_ : Z) : Z :=
  fold_left
    (fun best sent_end =>
       if (start + chunk_size / 2 <? sent_end) && (sent_end <=? end_)
       then sent_end else best)
    ends end_.

(** One pass of the body of [while start < len(text)]: the new [start]
    and the chunks. *)
Definition chunk_step (text : string) (ends : list Z) (chunk_size overlap : Z)
    (start : Z) (chunks : list string) : Z * list string :=
  let end_ := start + chunk_size in
  let end_ := if end_ <? slen text then best_break ends start chunk_size end_ else end_ in
  let chunk := strip (py_slice text start end_) in
  let chunks := match chunk with EmptyString => chunks | _ => chunks ++ [chunk] end in
  (end_ - overlap, chunks).

(** The [while] loop; [None] when [fuel] passes do not reach its exit. *)
Fixpoint chunk_loop (fuel : nat) (text : string) (ends : list Z) (chunk_size overlap : Z)
    (start : Z) (chunks : list string) : option (list string) :=
  match fuel with
  | O => None
  | S fuel' =>
      if start <? slen text then
        let '(start', chunks') := chunk_step text ends chunk_size overlap start chunks in
        chunk_loop fuel' text ends chunk_size overlap start' chunks'
      else Some chunks
  end.

Definition _optimized_chunk_text (fuel : nat) (text : string) (chunk_size overlap : Z)
    : option (list string) :=
  if slen text <=? chunk_size then Some [text]
  else chunk_loop fuel text (sentence_ends text) chunk_size overlap 0 [].

(** The call [_optimized_chunk_text(doc['content'])] of [index_documents],
    with the default sizes; [chunk_default_returns] shows that the fuel
    given is enough. *)
Definition chunk_default (text : string) : list string :=
  match _optimized_chunk_text (S (String.length text)) text 1000 200 with
  | Some chunks => chunks
  | None => []
  end.

(* ------------------------------------------------------------------ *)
(** ** OptimizedTFIDF.cosine_similarity_optimized *)

Section Cosine.
Context {F : Type} `{PF : PyFloat F}.

(** The body of the loop over [zip(vec1, vec2)]: dot product and the two
    squared magnitudes. *)
Definition cosine_body (acc : F * F * F) (ab : F * F) : F * F * F :=
  let '(dot_product, magnitude1_sq, magnitude2_sq) := acc in
  let '(a, b) := ab in
  (f_add dot_product (f_mul a b),
   f_add magnitude1_sq (f_mul a a),
   f_add magnitude2_sq (f_mul b b)).

Definition cosine_pass (vec1 vec2 : list F) : F * F * F :=
  fold_left cosine_body (combine vec1 vec2) (f_zero, f_zero, f_zero).

Definition cosine_similarity_optimized (vec1 vec2 : list F) : Res F :=
  let '(dot_product, magnitude1_sq, magnitude2_sq) := cosine_pass vec1 vec2 in
  if f_eqb magnitude1_sq f_zero || f_eqb magnitude2_sq f_zero then Normal f_zero
  else py_div dot_product (f_mul (f_sqrt magnitude1_sq) (f_sqrt magnitude2_sq)).

(** [sum(x * x for x in vector)] *)
Definition sum_squares (vector : list F) : F :=
  fold_left (fun acc x => f_add acc (f_mul x x)) vector f_zero.

(** [sum(a * b for a, b in zip(u, v))] *)
Definition dot (u v : list F) : F :=
  fold_left (fun acc '(a, b) => f_add acc (f_mul a b)) (combine u v) f_zero.

(** [math.sqrt(sum(x * x for x in vector))] *)
Definition norm (vector : list F) : F := f_sqrt (sum_squares vector).
End Cosine.

(* ------------------------------------------------------------------ *)
(** ** Hashing

    [hashlib.md5(...).hexdigest()] and the [str] of a list of texts are
    library code: parameters of the model. *)

Class Hashing : Type := {
  md5 : string -> string;                 (* md5(text.encode()).hexdigest() *)
  py_repr : list string -> string;        (* str(documents) *)
  (* _get_documents_signature: the digest of the sorted "name:length"
     parts, as a function of the (name, length) pairs *)
  documents_signature : list (string * nat) -> string
}.

(** A collision-free stand-in to run examples with: every text is its
    own digest. *)
#[export] Instance IdentityHashing : Hashing := {|
  md5 := fun text => text;
  py_repr := fun documents => String.concat "|" documents;
  documents_signature := fun parts => String.concat "|" (map fst parts)
|}.

(* ------------------------------------------------------------------ *)
(** ** The state *)

Local Open Scope nat_scope.

(** A document as [index_documents] receives it. *)
Record Document : Type := {
  doc_file_name : string;
  doc_file_path : string;
  doc_title : string;
  doc_content : string;
  doc_content_type : string
}.

(** A chunk: a row of the table [documents] and an entry of the
    in-memory list [self.documents]. *)
Record Chunk : Type := {
  id : nat;
  file_name : string;
  file_path : string;
  title : string;
  content : string;
  content_type : string;
  chunk_index : nat
}.

(** The SQLite connection: the table as this connection sees it, the
    committed table, and the AUTOINCREMENT counter. *)
Record Db : Type := {
  table : list Chunk;
  committed : list Chunk;
  last_rowid : nat
}.

Definition db_delete_all (db : Db) : Db :=
  {| table := []; committed := committed db; last_rowid := last_rowid db |}.

Definition db_insert (db : Db) (d : Document) (chunk : string) (i : nat) : Db :=
  let rowid := S (last_rowid db) in
  {| table := table db ++
       [{| id := rowid; file_name := doc_file_name d; file_path := doc_file_path d;
           title := doc_title d; content := chunk;
           content_type := doc_content_type d; chunk_index := i |}];
     committed := committed db;
     last_rowid := rowid |}.

Definition db_commit (db : Db) : Db :=
  {| table := table db; committed := table db; last_rowid := last_rowid db |}.

Section State.
Context {F : Type}.

(** One entry of a search result. *)
Record SearchResult : Type := {
  res_content : string;
  res_file_name : string;
  res_title : string;
  res_content_type : string;
  res_chunk_index : nat;
  similarity_score : F
}.

(** The content of cache/tfidf_model.pkl. *)
Record ModelFile : Type := {
  pk_docs_hash : string;
  pk_vocabulary : dict string nat;
  pk_document_frequencies : dict string nat;
  pk_documents : list string;
  pk_tf_idf_vectors : list (list F);
  pk_idf_values : dict string F
}.

(** The fields of an [OptimizedTFIDF]. *)
Record TFIDF : Type := {
  vocabulary : dict string nat;
  document_frequencies : dict string nat;
  tfidf_documents : list string;               (* self.documents *)
  tf_idf_vectors : list (list F);
  idf_values : dict string F;
  _tokenize_cache : dict string (list string);
  _vector_cache : dict string (list F)
}.

(** The engine, with what lives outside it: the memo table of the
    [lru_cache] around [tokenize] and the files under cache/. *)
Record World : Type := {
  tfidf : TFIDF;
  response_cache : dict string string;
  similarity_cache : dict (string * Z) (list SearchResult);
  conn : Db;
  documents : list Chunk;
  indexed : bool;
  doc_norms : list F;
  tokenize_lru : list (string * list string);  (* most recent first *)
  tfidf_model_pkl : option ModelFile;
  doc_norms_pkl : option (list F);
  docs_signature_txt : option string
}.

Definition with_tfidf (t : TFIDF) (w : World) : World :=
  {| tfidf := t; response_cache := response_cache w;
     similarity_cache := similarity_cache w; conn := conn w;
     documents := documents w; indexed := indexed w; doc_norms := doc_norms w;
     tokenize_lru := tokenize_lru w; tfidf_model_pkl := tfidf_model_pkl w;
     doc_norms_pkl := doc_norms_pkl w; docs_signature_txt := docs_signature_txt w |}.

Definition with_vector_cache (c : dict string (list F)) (w : World) : World :=
  with_tfidf
    {| vocabulary := vocabulary (tfidf w);
       document_frequencies := document_frequencies (tfidf w);
       tfidf_documents := tfidf_documents (tfidf w);
       tf_idf_vectors := tf_idf_vectors (tfidf w);
       idf_values := idf_values (tfidf w);
       _tokenize_cache := _tokenize_cache (tfidf w);
       _vector_cache := c |} w.

Definition with_response_cache (c : dict string string) (w : World) : World :=
  {| tfidf := tfidf w; response_cache := c;
     similarity_cache := similarity_cache w; conn := conn w;
     documents := documents w; indexed := indexed w; doc_norms := doc_norms w;
     tokenize_lru := tokenize_lru w; tfidf_model_pkl := tfidf_model_pkl w;
     doc_norms_pkl := doc_norms_pkl w; docs_signature_txt := docs_signature_txt w |}.

Definition with_similarity_cache (c : dict (string * Z) (list SearchResult)) (w : World)
    : World :=
  {| tfidf := tfidf w; response_cache := response_cache w;
     similarity_cache := c; conn := conn w;
     documents := documents w; indexed := indexed w; doc_norms := doc_norms w;
     tokenize_lru := tokenize_lru w; tfidf_model_pkl := tfidf_model_pkl w;
     doc_norms_pkl := doc_norms_pkl w; docs_signature_txt := docs_signature_txt w |}.

Definition with_conn (db : Db) (w : World) : World :=
  {| tfidf := tfidf w; response_cache := response_cache w;
     similarity_cache := similarity_cache w; conn := db;
     documents := documents w; indexed := indexed w; doc_norms := doc_norms w;
     tokenize_lru := tokenize_lru w; tfidf_model_pkl := tfidf_model_pkl w;
     doc_norms_pkl := doc_norms_pkl w; docs_signature_txt := docs_signature_txt w |}.

Definition with_documents (ds : list Chunk) (w : World) : World :=
  {| tfidf := tfidf w; response_cache := response_cache w;
     similarity_cache := similarity_cache w; conn := conn w;
     documents := ds; indexed := indexed w; doc_norms := doc_norms w;
     tokenize_lru := tokenize_lru w; tfidf_model_pkl := tfidf_model_pkl w;
     doc_norms_pkl := doc_norms_pkl w; docs_signature_txt := docs_signature_txt w |}.

Definition with_indexed (b : bool) (w : World) : World :=
  {| tfidf := tfidf w; response_cache := response_cache w;
     similarity_cache := similarity_cache w; conn := conn w;
     documents := documents w; indexed := b; doc_norms := doc_norms w;
     tokenize_lru := tokenize_lru w; tfidf_model_pkl := tfidf_model_pkl w;
     doc_norms_pkl := doc_norms_pkl w; docs_signature_txt := docs_signature_txt w |}.

Definition with_doc_norms (ns : list F) (w : World) : World :=
  {| tfidf := tfidf w; response_cache := response_cache w;
     similarity_cache := similarity_cache w; conn := conn w;
     documents := documents w; indexed := indexed w; doc_norms := ns;
     tokenize_lru := tokenize_lru w; tfidf_model_pkl := tfidf_model_pkl w;
     doc_norms_pkl := doc_norms_pkl w; docs_signature_txt := docs_signature_txt w |}.

Definition with_tokenize_lru (l : list (string * list string)) (w : World) : World :=
  {| tfidf := tfidf w; response_cache := response_cache w;
     similarity_cache := similarity_cache w; conn := conn w;
     documents := documents w; indexed := indexed w; doc_norms := doc_norms w;
     tokenize_lru := l; tfidf_model_pkl := tfidf_model_pkl w;
     doc_norms_pkl := doc_norms_pkl w; docs_signature_txt := docs_signature_txt w |}.

Definition with_model_file (f : option ModelFile) (w : World) : World :=
  {| tfidf := tfidf w; response_cache := response_cache w;
     similarity_cache := similarity_cache w; conn := conn w;
     documents := documents w; indexed := indexed w; doc_norms := doc_norms w;
     tokenize_lru := tokenize_lru w; tfidf_model_pkl := f;
     doc_norms_pkl := doc_norms_pkl w; docs_signature_txt := docs_signature_txt w |}.

Definition with_index_files (ns : option (list F)) (sig : option string) (w : World)
    : World :=
  {| tfidf := tfidf w; response_cache := response_cache w;
     similarity_cache := similarity_cache w; conn := conn w;
     documents := documents w; indexed := indexed w; doc_norms := doc_norms w;
     tokenize_lru := tokenize_lru w; tfidf_model_pkl := tfidf_model_pkl w;
     doc_norms_pkl := ns; docs_signature_txt := sig |}.

(** [OptimizedTFIDF.__init__] and [FastSimpleRAGEngine.__init__], in a
    process that has tokenized nothing yet, over the database and the
    model file found on disk. *)
Definition new_tfidf : TFIDF :=
  {| vocabulary := []; document_frequencies := []; tfidf_documents := [];
     tf_idf_vectors := []; idf_values := [];
     _tokenize_cache := []; _vector_cache := [] |}.

Definition new_engine (db : Db) (model_file : option ModelFile) : World :=
  {| tfidf := new_tfidf; response_cache := []; similarity_cache := [];
     conn := db; documents := []; indexed := false; doc_norms := [];
     tokenize_lru := []; tfidf_model_pkl := model_file;
     doc_norms_pkl := None; docs_signature_txt := None |}.
End State.

Arguments SearchResult F : clear implicits.
Arguments ModelFile F : clear implicits.
Arguments TFIDF F : clear implicits.
Arguments World F : clear implicits.

Definition empty_db : Db := {| table := []; committed := []; last_rowid := 0 |}.

(* ------------------------------------------------------------------ *)
(** ** OptimizedTFIDF *)

Section Vectorizer.
Context {F : Type} `{PF : PyFloat F} `{PL : PyLog F} `{HS : Hashing}.

(** *** tokenize under [@lru_cache(maxsize=10000)] *)

Definition lru_maxsize : nat := 10000.

Fixpoint lru_remove (text : string) (l : list (string * list string))
    : list (string * list string) :=
  match l with
  | [] => []
  | (k, v) :: l' => if String.eqb text k then l' else (k, v) :: lru_remove text l'
  end.

(** A hit returns the stored tuple and makes the entry the most recent
    one; a miss runs [tokenize], stores the tuple and evicts the least
    recent entry beyond [maxsize]. *)
Definition tokenize_cached (text : string) (w : World F) : list string * World F :=
  match dict_get String.eqb (tokenize_lru w) text with
  | Some tokens =>
      (tokens, with_tokenize_lru ((text, tokens) :: lru_remove text (tokenize_lru w)) w)
  | None =>
      let tokens := tokenize text in
      (tokens, with_tokenize_lru (firstn lru_maxsize ((text, tokens) :: tokenize_lru w)) w)
  end.

(** *** compute_tf *)

(** [Counter(tokens)]: counts, keys in order of first occurrence. *)
Definition counter (tokens : list string) : dict string nat :=
  fold_left
    (fun c token =>
       dict_set String.eqb c token
         (S (match dict_get String.eqb c token with Some n => n | None => 0 end)))
    tokens [].

Definition compute_tf (tokens : list string) : dict string F :=
  let token_count := length tokens in
  if token_count =? 0 then []
  else map (fun '(token, count) => (token, f_truediv count token_count)) (counter tokens).

(** *** The vector of one text *)

(** [vector[i] = x] *)
Fixpoint list_assign (vector : list F) (i : nat) (x : F) : Res (list F) :=
  match vector, i with
  | [], _ => Raise IndexError
  | _ :: vector', O => Normal (x :: vector')
  | y :: vector', S i' =>
      match list_assign vector' i' x with
      | Normal r => Normal (y :: r)
      | Raise e => Raise e
      end
  end.

(** The loop of [fit] over [tf.items()]: a token of the vocabulary is
    looked up in [idf_values] without a test. *)
Fixpoint fit_vector_loop (vocab : dict string nat) (idf : dict string F)
    (items : list (string * F)) (vector : list F) : Res (list F) :=
  match items with
  | [] => Normal vector
  | (token, tf_score) :: items' =>
      match dict_get String.eqb vocab token with
      | Some i =>
          match dict_get String.eqb idf token with
          | Some idf_token =>
              vector' <- list_assign vector i (f_mul tf_score idf_token) ;;
              fit_vector_loop vocab idf items' vector'
          | None => Raise KeyError
          end
      | None => fit_vector_loop vocab idf items' vector
      end
  end.

(** The loop of [transform]: a token counts when it is in the
    vocabulary and in [idf_values]. *)
Fixpoint transform_vector_loop (vocab : dict string nat) (idf : dict string F)
    (items : list (string * F)) (vector : list F) : Res (list F) :=
  match items with
  | [] => Normal vector
  | (token, tf_score) :: items' =>
      if dict_mem String.eqb vocab token && dict_mem String.eqb idf token then
        match dict_get String.eqb vocab token, dict_get String.eqb idf token with
        | Some i, Some idf_token =>
            vector' <- list_assign vector i (f_mul tf_score idf_token) ;;
            transform_vector_loop vocab idf items' vector'
        | _, _ => Raise KeyError
        end
      else transform_vector_loop vocab idf items' vector
  end.

Definition zeros (n : nat) : list F := repeat f_zero n.

(** *** fit *)

(** [for doc in documents: all_tokens.append(self.tokenize(doc))] *)
Fixpoint tokenize_all (documents : list string) (w : World F)
    : list (list string) * World F :=
  match documents with
  | [] => ([], w)
  | doc :: documents' =>
      let '(tokens, w1) := tokenize_cached doc w in
      let '(all_tokens, w2) := tokenize_all documents' w1 in
      (tokens :: all_tokens, w2)
  end.

Definition mem_string (x : string) (l : list string) : bool :=
  existsb (String.eqb x) l.

(** A [set] of strings: no duplicates, here in order of first
    occurrence (the source never depends on the order of a set). *)
Definition set_add (s : list string) (x : string) : list string :=
  if mem_string x s then s else s ++ [x].

Definition set_update (s : list string) (tokens : list string) : list string :=
  fold_left set_add tokens s.

Definition set_of (tokens : list string) : list string := set_update [] tokens.

Fixpoint insert_sorted (x : string) (l : list string) : list string :=
  match l with
  | [] => [x]
  | y :: l' => if String.leb x y then x :: l else y :: insert_sorted x l'
  end.

(** [sorted(all_words)] *)
Definition sorted (l : list string) : list string :=
  fold_left (fun acc x => insert_sorted x acc) l [].

(** [{word: i for i, word in enumerate(sorted(all_words))}] *)
Definition build_vocabulary (all_tokens : list (list string)) : dict string nat :=
  let all_words := fold_left set_update all_tokens [] in
  let words := sorted all_words in
  combine words (seq 0 (length words)).

(** [self.document_frequencies[token] += 1] over the distinct tokens
    of every document, on top of the counts already there. *)
Definition count_document_frequencies (df : dict string nat)
    (all_tokens : list (list string)) : dict string nat :=
  fold_left
    (fun df tokens =>
       fold_left
         (fun df token =>
            dict_set String.eqb df token
              (S (match dict_get String.eqb df token with Some n => n | None => 0 end)))
         (set_of tokens) df)
    all_tokens df.

(** [math.log(num_documents / df) if df > 0 else 0]; the logarithm of
    the quotient 0.0 raises. *)
Definition idf_of (num_documents df : nat) : Res F :=
  if 0 <? df then
    if num_documents =? 0 then Raise ValueError
    else Normal (f_log (f_truediv num_documents df))
  else Normal f_zero.

(** The loop over [document_frequencies.items()]: the table of idf
    values as far as it got, and whether it raised. *)
Fixpoint idf_loop (num_documents : nat) (items : list (string * nat))
    (idf : dict string F) : dict string F * Res unit :=
  match items with
  | [] => (idf, Normal tt)
  | (token, df) :: items' =>
      match idf_of num_documents df with
      | Normal x => idf_loop num_documents items' (dict_set String.eqb idf token x)
      | Raise e => (idf, Raise e)
      end
  end.

(** The loop that fills [tf_idf_vectors]: the vectors appended so far,
    and whether it raised. *)
Fixpoint vectors_loop (vocab : dict string nat) (idf : dict string F)
    (all_tokens : list (list string)) (vectors : list (list F))
    : list (list F) * Res unit :=
  match all_tokens with
  | [] => (vectors, Normal tt)
  | tokens :: all_tokens' =>
      match fit_vector_loop vocab idf (compute_tf tokens) (zeros (length vocab)) with
      | Normal vector => vectors_loop vocab idf all_tokens' (vectors ++ [vector])
      | Raise e => (vectors, Raise e)
      end
  end.

Definition fit (documents : list string) (w : World F) : Res unit * World F :=
  let docs_hash := md5 (py_repr documents) in
  let cached :=
    match tfidf_model_pkl w with
    | Some f => if String.eqb (pk_docs_hash f) docs_hash then Some f else None
    | None => None
    end in
  match cached with
  | Some f =>
      (Normal tt,
       with_tfidf
         {| vocabulary := pk_vocabulary f;
            document_frequencies := pk_document_frequencies f;
            tfidf_documents := pk_documents f;
            tf_idf_vectors := pk_tf_idf_vectors f;
            idf_values := pk_idf_values f;
            _tokenize_cache := _tokenize_cache (tfidf w);
            _vector_cache := _vector_cache (tfidf w) |} w)
  | None =>
      let '(all_tokens, w1) := tokenize_all documents w in
      let t := tfidf w1 in
      let vocab := build_vocabulary all_tokens in
      let df := count_document_frequencies (document_frequencies t) all_tokens in
      let '(idf, r_idf) := idf_loop (length documents) df (idf_values t) in
      let '(vectors, r) :=
        match r_idf with
        | Normal _ => vectors_loop vocab idf all_tokens []
        | Raise e => (tf_idf_vectors t, Raise e)
        end in
      let t' :=
        {| vocabulary := vocab;
           document_frequencies := df;
           tfidf_documents := documents;
           tf_idf_vectors := vectors;
           idf_values := idf;
           _tokenize_cache := _tokenize_cache t;
           _vector_cache := _vector_cache t |} in
      match r with
      | Normal _ =>
          (Normal tt,
           with_model_file
             (Some {| pk_docs_hash := docs_hash;
                      pk_vocabulary := vocab;
                      pk_document_frequencies := df;
                      pk_documents := documents;
                      pk_tf_idf_vectors := vectors;
                      pk_idf_values := idf |})
             (with_tfidf t' w1))
      | Raise e => (Raise e, with_tfidf t' w1)
      end
  end.

(** *** transform *)

Definition transform (text : string) (w : World F) : Res (list F) * World F :=
  let cache_key := md5 text in
  match dict_get String.eqb (_vector_cache (tfidf w)) cache_key with
  | Some vector => (Normal vector, w)
  | None =>
      let '(tokens, w1) := tokenize_cached text w in
      let t := tfidf w1 in
      match transform_vector_loop (vocabulary t) (idf_values t) (compute_tf tokens)
              (zeros (length (vocabulary t))) with
      | Raise e => (Raise e, w1)
      | Normal vector =>
          let cache := dict_set String.eqb (_vector_cache t) cache_key vector in
          let cache := if 1000 <? length cache then dict_drop_oldest 100 cache else cache in
          (Normal vector, with_vector_cache cache w1)
      end
  end.
End Vectorizer.

(* ------------------------------------------------------------------ *)
(** ** FastSimpleRAGEngine *)

Section Engine.
Context {F : Type} `{PF : PyFloat F} `{PL : PyLog F} `{HS : Hashing}.

(** *** index_documents *)

(** "Por ora, sempre reprocessar para garantir funcionamento" *)
Definition _check_documents_cached (documents : list Document) : bool := false.

Definition _get_documents_signature (parts : list (string * nat)) : string :=
  documents_signature parts.

Definition _cache_index (w : World F) : World F :=
  with_index_files
    (Some (doc_norms w))
    (Some (_get_documents_signature
             (map (fun d => (file_name d, String.length (content d))) (documents w))))
    w.

(** [norm = math.sqrt(sum(x * x for x in vector))] for every vector *)
Definition compute_norms (vectors : list (list F)) : list F := map norm vectors.

Definition _load_cached_index (w : World F) : bool * World F :=
  let rows := table (conn w) in
  let w1 := with_documents rows w in
  match fit (map content rows) w1 with
  | (Raise _, w2) => (false, w2)
  | (Normal _, w2) =>
      let norms :=
        match doc_norms_pkl w2 with
        | Some ns => ns
        | None => compute_norms (tf_idf_vectors (tfidf w2))
        end in
      (true, with_indexed true (with_doc_norms norms w2))
  end.

(** The inner loop, [for i, chunk in enumerate(chunks)]: insert the
    row, append the text and the in-memory record, count [doc_id]. *)
Fixpoint index_chunks (doc : Document) (chunks : list string) (i : nat)
    (acc : Db * list string * list Chunk * nat) : Db * list string * list Chunk * nat :=
  match chunks with
  | [] => acc
  | chunk :: chunks' =>
      let '(db, texts, docs, doc_id) := acc in
      index_chunks doc chunks' (S i)
        (db_insert db doc chunk i,
         texts ++ [chunk],
         docs ++ [{| id := doc_id; file_name := doc_file_name doc;
                     file_path := doc_file_path doc; title := doc_title doc;
                     content := chunk; content_type := doc_content_type doc;
                     chunk_index := i |}],
         S doc_id)
  end.

(** The outer loop, [for doc in documents]. *)
Definition index_all (documents : list Document)
    (acc : Db * list string * list Chunk * nat) : Db * list string * list Chunk * nat :=
  fold_left
    (fun acc doc => index_chunks doc (chunk_default (doc_content doc)) 0 acc)
    documents acc.

Definition index_documents (documents : list Document) (w : World F) : bool * World F :=
  if _check_documents_cached documents then _load_cached_index w
  else
    let '(db, texts, docs, _) :=
      index_all documents (db_delete_all (conn w), [], [], 0) in
    let w1 := with_documents docs (with_conn (db_commit db) w) in
    match texts with
    | _ :: _ =>
        match fit texts w1 with
        | (Raise _, w2) => (false, w2)
        | (Normal _, w2) =>
            let w3 := with_doc_norms (compute_norms (tf_idf_vectors (tfidf w2))) w2 in
            (true, _cache_index (with_indexed true w3))
        end
    | [] => (false, w1)
    end.

(** *** search_similar_documents *)

(** [(similarity, i) < (similarity', i')] on tuples: the first
    components that are not [==] decide, else the second ones. *)
Definition tuple_ltb (a b : F * nat) : bool :=
  if f_eqb (fst a) (fst b) then snd a <? snd b else f_ltb (fst a) (fst b).

Fixpoint insert_asc (x : F * nat) (l : list (F * nat)) : list (F * nat) :=
  match l with
  | [] => [x]
  | y :: l' => if tuple_ltb x y then x :: l else y :: insert_asc x l'
  end.

(** [list.sort(reverse=True)]: the list is reversed, sorted in
    ascending order by a stable sort, and reversed again. *)
Definition sort_ascending (l : list (F * nat)) : list (F * nat) :=
  fold_left (fun acc x => insert_asc x acc) l [].

Definition sort_reverse (l : list (F * nat)) : list (F * nat) :=
  rev (sort_ascending (rev l)).

(** The scoring loop over [enumerate(zip(tf_idf_vectors, doc_norms))]. *)
Fixpoint similarities_loop (query_vector : list F) (query_norm : F)
    (rows : list (list F * F)) (i : nat) (similarities : list (F * nat))
    : Res (list (F * nat)) :=
  match rows with
  | [] => Normal similarities
  | (doc_vector, doc_norm) :: rows' =>
      similarity <-
        (if f_eqb doc_norm f_zero then Normal f_zero
         else py_div (dot query_vector doc_vector) (f_mul query_norm doc_norm)) ;;
      similarities_loop query_vector query_norm rows' (S i)
        (if f_ltb f_threshold similarity
         then similarities ++ [(similarity, i)] else similarities)
  end.

(** [l[:n]] *)
Definition slice_to {A : Type} (l : list A) (n : Z) : list A :=
  if (n <? 0)%Z then firstn (length l - Z.to_nat (- n)) l
  else firstn (Z.to_nat n) l.

Definition make_result (d : Chunk) (similarity : F) : SearchResult F :=
  {| res_content := content d; res_file_name := file_name d; res_title := title d;
     res_content_type := content_type d; res_chunk_index := chunk_index d;
     similarity_score := similarity |}.

(** The loop that builds [results]; [self.documents[idx]] raises out
    of range. *)
Fixpoint build_results (docs : list Chunk) (top : list (F * nat))
    : Res (list (SearchResult F)) :=
  match top with
  | [] => Normal []
  | (similarity, idx) :: top' =>
      match nth_error docs idx with
      | Some d =>
          results <- build_results docs top' ;;
          Normal (make_result d similarity :: results)
      | None => Raise IndexError
      end
  end.

(** The key [f"{query_hash}_{n_results}"], as the pair it is made of. *)
Definition cache_key_eqb (a b : string * Z) : bool :=
  String.eqb (fst a) (fst b) && (snd a =? snd b)%Z.

(** The ranked candidates of a query vector: scored, filtered, sorted. *)
Definition rank (query_vector : list F) (w : World F) : Res (list (F * nat)) :=
  similarities <-
    similarities_loop query_vector (norm query_vector)
      (combine (tf_idf_vectors (tfidf w)) (doc_norms w)) 0 [] ;;
  Normal (sort_reverse similarities).

Definition search_similar_documents (query : string) (n_results : Z) (w : World F)
    : list (SearchResult F) * World F :=
  if negb (indexed w) then ([], w)
  else
    let cache_key := (md5 query, n_results) in
    match dict_get cache_key_eqb (similarity_cache w) cache_key with
    | Some results => (results, w)
    | None =>
        match transform query w with
        | (Raise _, w1) => ([], w1)
        | (Normal query_vector, w1) =>
            if f_eqb (norm query_vector) f_zero then ([], w1)
            else
              match
                (similarities <- rank query_vector w1 ;;
                 build_results (documents w1) (slice_to similarities n_results))
              with
              | Raise _ => ([], w1)
              | Normal results =>
                  let cache := dict_set cache_key_eqb (similarity_cache w1) cache_key results in
                  let cache :=
                    if 500 <? length cache then dict_drop_oldest 100 cache else cache in
                  (results, with_similarity_cache cache w1)
              end
        end
    end.

(** *** clear_cache *)

Definition clear_cache (w : World F) : World F :=
  with_vector_cache [] (with_similarity_cache [] (with_response_cache [] w)).
End Engine.

(* ------------------------------------------------------------------ *)
(** ** Answers and introspection

    The wall-clock field [processing_time] of an answer is left out. *)

Class PyFormat (F : Type) : Type := {
  format_percent : F -> string             (* f"{x:.1%}" *)
}.

(** One entry of [sources] in an answer. *)
Record Source (F : Type) : Type := {
  src_file_name : string;
  src_title : string;
  src_content_type : string;
  relevance_score : F
}.

Arguments src_file_name {F} s.
Arguments src_title {F} s.
Arguments src_content_type {F} s.
Arguments relevance_score {F} s.

(** What [chat] returns. *)
Record Answer (F : Type) : Type := {
  response : string;
  sources : list (Source F)
}.

Arguments response {F} a.
Arguments sources {F} a.

(** What [get_collection_info] returns. *)
Record CollectionInfo : Type := {
  collection_name : string;
  document_count : nat;
  embedding_model : string;
  llm_model : string;
  cache_size : nat;
  cache_hits : nat
}.

Section Answers.
Context {F : Type} `{PF : PyFloat F} `{PL : PyLog F} `{HS : Hashing} `{FM : PyFormat F}.
Local Open Scope string_scope.

(** [self.groq_client]: absent, or the completion service, which takes
    the user prompt to the content of the first choice or fails. *)
Variable groq_client : option (string -> Res string).

(** [config.COLLECTION_NAME] *)
Variable COLLECTION_NAME : string.

(** The character U+1F4C4 of the answer template lies beyond U+00FF:
    what stands for it in the alphabet of the model is left open. *)
Variable page_facing_up : string.

Definition newline : string := String "010"%char EmptyString.

(** [md5(str([doc['content'][:n] for doc in context_docs]))] *)
Definition context_hash (n : Z) (context_docs : list (SearchResult F)) : string :=
  md5 (py_repr (map (fun doc => py_slice (res_content doc) 0 n) context_docs)).

(** The prompt of [generate_response_groq], from at most three documents
    of at most 600 characters each. *)
Definition groq_prompt (query : string) (context_docs : list (SearchResult F)) : string :=
  let context_parts :=
    map (fun doc =>
           "Documento: " ++ res_file_name doc ++ newline
           ++ "Conte" ++ u_acute ++ "do: " ++ py_slice (res_content doc) 0 600 ++ newline)
      (slice_to context_docs 3) in
  let context_text := String.concat newline context_parts in
  "Baseado na documenta" ++ c_cedilla ++ a_tilde ++ "o t" ++ e_acute ++ "cnica da i4pro:"
  ++ newline ++ newline
  ++ context_text ++ newline ++ newline
  ++ "Pergunta: " ++ query ++ newline ++ newline
  ++ "Responda de forma direta e precisa em portugu" ++ e_circumflex ++ "s brasileiro.".

Definition evict_responses (cache : dict string string) : dict string string :=
  if (200 <? length cache)%nat then dict_drop_oldest 50 cache else cache.

Definition generate_response_groq (query : string) (context_docs : list (SearchResult F))
    (w : World F) : option string * World F :=
  match groq_client with
  | None => (None, w)
  | Some client =>
      match context_docs with
      | [] => (None, w)
      | _ :: _ =>
          let cache_key :=
            "groq_" ++ md5 query ++ "_" ++ context_hash 200 context_docs in
          match dict_get String.eqb (response_cache w) cache_key with
          | Some cached => (Some cached, w)
          | None =>
              match client (groq_prompt query context_docs) with
              | Normal content =>
                  let result := strip content in
                  let cache := dict_set String.eqb (response_cache w) cache_key result in
                  (Some result, with_response_cache (evict_responses cache) w)
              | Raise _ => (None, w)
              end
          end
      end
  end.

Definition no_information_in_documentation : string :=
  "Desculpe, n" ++ a_tilde ++ "o encontrei informa" ++ c_cedilla ++ o_tilde
  ++ "es relevantes na documenta" ++ c_cedilla ++ a_tilde ++ "o para responder "
  ++ a_grave ++ " sua pergunta.".

(** The template of [generate_response_simple]. *)
Definition simple_template (file_name content : string) (score : F) : string :=
  "**Informa" ++ c_cedilla ++ a_tilde ++ "o encontrada na documenta" ++ c_cedilla ++ a_tilde
  ++ "o:**" ++ newline ++ newline
  ++ page_facing_up ++ " **" ++ file_name ++ "**:" ++ newline
  ++ content ++ newline ++ newline
  ++ "**Relev" ++ a_circumflex ++ "ncia**: " ++ format_percent score.

(** [content[:300] + "..." if len(content) > 300 else content] *)
Definition excerpt (content : string) : string :=
  if (300 <? String.length content)%nat then py_slice content 0 300 ++ "..." else content.

Definition generate_response_simple (query : string) (context_docs : list (SearchResult F))
    (w : World F) : string * World F :=
  match context_docs with
  | [] => (no_information_in_documentation, w)
  | best_doc :: _ =>
      let cache_key :=
        "simple_" ++ md5 query ++ "_" ++ context_hash 100 context_docs in
      match dict_get String.eqb (response_cache w) cache_key with
      | Some cached => (cached, w)
      | None =>
          let response :=
            simple_template (res_file_name best_doc) (excerpt (res_content best_doc))
              (similarity_score best_doc) in
          (response,
           with_response_cache (dict_set String.eqb (response_cache w) cache_key response) w)
      end
  end.

Definition no_information_in_base : string :=
  "Desculpe, n" ++ a_tilde ++ "o encontrei informa" ++ c_cedilla ++ o_tilde
  ++ "es relevantes na base de documentos para responder " ++ a_grave ++ " sua pergunta.".

Definition source_of (doc : SearchResult F) : Source F :=
  {| src_file_name := res_file_name doc; src_title := res_title doc;
     src_content_type := res_content_type doc;
     relevance_score := similarity_score doc |}.

Definition chat (query : string) (w : World F) : Answer F * World F :=
  let '(relevant_docs, w1) := search_similar_documents query 5 w in
  match relevant_docs with
  | [] => ({| response := no_information_in_base; sources := [] |}, w1)
  | _ :: _ =>
      let '(groq_response, w2) :=
        match groq_client with
        | Some _ => generate_response_groq query relevant_docs w1
        | None => (None, w1)
        end in
      let '(answer, w3) :=
        match groq_response with
        | Some (String c r) => (String c r, w2)
        | Some EmptyString | None => generate_response_simple query relevant_docs w2
        end in
      ({| response := answer; sources := map source_of (slice_to relevant_docs 2) |}, w3)
  end.

Definition get_collection_info (w : World F) : CollectionInfo :=
  {| collection_name := COLLECTION_NAME;
     document_count := length (table (conn w));
     embedding_model := "Optimized TF-IDF with caching";
     llm_model := "Groq + Optimized fallback";
     cache_size := length (response_cache w) + length (similarity_cache w);
     cache_hits := 0 |}.
End Answers.

(* ================================================================== *)
(** * Part II: properties *)
(* ================================================================== *)

(* ------------------------------------------------------------------ *)
(** ** Tokenizer *)

Fixpoint take_while (p : ascii -> bool) (s : string) : string :=
  match s with
  | String c s' => if p c then String c (take_while p s') else EmptyString
  | EmptyString => EmptyString
  end.

Fixpoint drop_while (p : ascii -> bool) (s : string) : string :=
  match s with
  | String c s' => if p c then drop_while p s' else s
  | EmptyString => EmptyString
  end.

Fixpoint drop (k : nat) (s : string) : string :=
  match k, s with
  | S k', String _ s' => drop k' s'
  | _, _ => s
  end.

Fixpoint all_chars (p : ascii -> bool) (s : string) : bool :=
  match s with
  | String c s' => p c && all_chars p s'
  | EmptyString => true
  end.

Definition holds_opt (p : ascii -> bool) (c : option ascii) : bool :=
  match c with Some c => p c | None => false end.

(** The maximal runs of characters that satisfy [p], in order. *)
Fixpoint runs (p : ascii -> bool) (s : string) : list string :=
  match s with
  | EmptyString => []
  | String c s' =>
      if p c then
        if holds_opt p (head_char s') then
          match runs p s' with
          | r :: rs => String c r :: rs
          | [] => [String c EmptyString]
          end
        else String c EmptyString :: runs p s'
      else runs p s'
  end.

(** The tokenizer as the specification words it: the maximal runs of
    lowercase letters of the lowercased text that have two letters or
    more. *)
Definition tokenize_as_specified (text : string) : list string :=
  filter (fun r => 2 <=? String.length r) (runs is_lower (str_lower text)).

(** What the pattern keeps: a word (a maximal run of letters, digits and
    underscores, the letters and digits above U+007F among them) that is
    made of the lowercase letters a to z only, two or more. *)
Definition is_token (word : string) : bool :=
  (2 <=? String.length word) && all_chars is_lower word.

Definition tokenize_by_words (text : string) : list string :=
  filter is_token (runs is_word (str_lower text)).

Lemma is_lower_word c : is_lower c = true -> is_word c = true.
Proof. unfold is_word. intros ->. reflexivity. Qed.

Lemma runs_unfold p c s :
  runs p (String c s) =
    if p c then
      if holds_opt p (head_char s) then
        match runs p s with
        | r :: rs => String c r :: rs
        | [] => [String c EmptyString]
        end
      else String c EmptyString :: runs p s
    else runs p s.
Proof. reflexivity. Qed.

Lemma runs_cons p c s :
  p c = true ->
  runs p (String c s) = String c (take_while p s) :: runs p (drop_while p s).
Proof.
  revert c. induction s as [|d s IH]; intros c Hc; rewrite runs_unfold, Hc.
  - reflexivity.
  - cbn [head_char holds_opt take_while drop_while]. destruct (p d) eqn:Hd.
    + rewrite (IH d Hd). reflexivity.
    + reflexivity.
Qed.

Lemma runs_skip p c s : p c = false -> runs p (String c s) = runs p s.
Proof. intros Hc. simpl. rewrite Hc. reflexivity. Qed.

(** Greedy matching with give-back comes to this: the longest run of
    letters, accepted when it has two letters and no word character
    follows. *)
Definition accept (n : nat) (s : string) : option (string * string) :=
  if (2 <=? n + String.length (take_while is_lower s))
     && negb (is_word_opt (head_char (drop_while is_lower s)))
  then Some (take_while is_lower s, drop_while is_lower s) else None.

Lemma lower_run_unfold n prev s :
  lower_run n prev s =
    let stop := if (2 <=? n) && word_boundary prev s then Some (EmptyString, s) else None in
    match s with
    | String c s' =>
        if is_lower c then
          match lower_run (S n) (Some c) s' with
          | Some (tok, rest) => Some (String c tok, rest)
          | None => stop
          end
        else stop
    | EmptyString => stop
    end.
Proof. destruct s; reflexivity. Qed.

Lemma accept_stop n c s :
  is_lower c = true ->
  holds_opt is_lower (head_char s) = false ->
  (if (2 <=? n) && word_boundary (Some c) s then Some (EmptyString, s) else None)
  = accept n s.
Proof.
  intros Hc Hs. unfold accept, word_boundary. cbn [is_word_opt].
  rewrite (is_lower_word _ Hc).
  destruct s as [|d s]; cbn [head_char holds_opt] in Hs; cbn [take_while drop_while].
  - cbn [String.length head_char is_word_opt]. rewrite Nat.add_0_r. reflexivity.
  - rewrite Hs. cbn [String.length head_char is_word_opt]. rewrite Nat.add_0_r.
    destruct (is_word d); reflexivity.
Qed.

Lemma lower_run_spec s : forall n c,
  is_lower c = true -> lower_run n (Some c) s = accept n s.
Proof.
  induction s as [|d s IH]; intros n c Hc; rewrite lower_run_unfold; cbv zeta.
  - apply accept_stop; [assumption|reflexivity].
  - destruct (is_lower d) eqn:Hd.
    + rewrite (IH (S n) d Hd). unfold accept. cbn [take_while drop_while]. rewrite Hd.
      cbn [String.length]. rewrite Nat.add_succ_r. cbn [Nat.add].
      destruct ((2 <=? S (n + String.length (take_while is_lower s)))
                && negb (is_word_opt (head_char (drop_while is_lower s)))); [reflexivity|].
      unfold word_boundary. cbn [is_word_opt head_char].
      rewrite (is_lower_word _ Hc), (is_lower_word _ Hd).
      rewrite andb_false_r. reflexivity.
    + apply accept_stop; [assumption|]. cbn [head_char holds_opt]. assumption.
Qed.

Lemma match_at_spec prev s :
  match_at prev s = if is_word_opt prev then None else accept 0 s.
Proof.
  unfold match_at. rewrite lower_run_unfold; cbv zeta.
  replace (if (2 <=? 0) && word_boundary prev s then Some (EmptyString, s) else None)
    with (@None (string * string)) by reflexivity.
  destruct s as [|c s].
  - destruct (word_boundary prev ""), (is_word_opt prev); reflexivity.
  - destruct (is_lower c) eqn:Hc.
    + unfold word_boundary. cbn [head_char is_word_opt]. rewrite (is_lower_word _ Hc).
      destruct (is_word_opt prev); cbn [xorb].
      * reflexivity.
      * rewrite (lower_run_spec s 1 c Hc). unfold accept.
        cbn [take_while drop_while]. rewrite Hc. cbn [String.length].
        rewrite Nat.add_succ_r. cbn [Nat.add].
        destruct ((2 <=? S (String.length (take_while is_lower s)))
                  && negb (is_word_opt (head_char (drop_while is_lower s)))); reflexivity.
    + unfold accept. cbn [take_while drop_while]. rewrite Hc.
      destruct (word_boundary prev (String c s)), (is_word_opt prev); reflexivity.
Qed.

Lemma findall_from_unfold k prev c s :
  findall_from k prev (String c s) =
    match k with
    | S k' => findall_from k' (Some c) s
    | O =>
        match match_at prev (String c s) with
        | Some (tok, _) => tok :: findall_from (String.length tok - 1) (Some c) s
        | None => findall_from 0 (Some c) s
        end
    end.
Proof. reflexivity. Qed.

Lemma take_while_lower_word s :
  all_chars is_lower (take_while is_lower s) = true.
Proof.
  induction s as [|c s IH]; cbn [take_while]; [reflexivity|].
  destruct (is_lower c) eqn:Hc; cbn [all_chars]; [rewrite Hc, IH|]; reflexivity.
Qed.

Lemma drop_take_while p s :
  drop (String.length (take_while p s)) s = drop_while p s.
Proof.
  induction s as [|c s IH]; cbn [take_while drop_while]; [reflexivity|].
  destruct (p c); cbn [String.length drop]; [exact IH|reflexivity].
Qed.

(** When the letters of [s] stop before a non-word character, they are
    the whole word at the head of [s]. *)
Lemma lower_prefix_is_word s :
  is_word_opt (head_char (drop_while is_lower s)) = false ->
  take_while is_word s = take_while is_lower s
  /\ drop_while is_word s = drop_while is_lower s.
Proof.
  induction s as [|c s IH]; cbn [take_while drop_while]; [split; reflexivity|].
  destruct (is_lower c) eqn:Hc.
  - rewrite (is_lower_word _ Hc). intros Hs. destruct (IH Hs) as [-> ->].
    split; reflexivity.
  - cbn [head_char is_word_opt]. intros ->. split; reflexivity.
Qed.

(** Conversely a word that holds another character is not all letters. *)
Lemma word_not_lower s :
  is_word_opt (head_char (drop_while is_lower s)) = true ->
  all_chars is_lower (take_while is_word s) = false.
Proof.
  induction s as [|c s IH]; cbn [take_while drop_while].
  - discriminate.
  - destruct (is_lower c) eqn:Hc.
    + rewrite (is_lower_word _ Hc). intros Hs. cbn [all_chars].
      rewrite (IH Hs). apply andb_false_r.
    + cbn [head_char is_word_opt]. intros ->. cbn [all_chars]. rewrite Hc. reflexivity.
Qed.

Lemma runs_drop_word s :
  runs is_word (drop_while is_word s) = runs is_word (drop_while is_word (drop_while is_word s)).
Proof.
  induction s as [|c s IH]; cbn [drop_while]; [reflexivity|].
  destruct (is_word c) eqn:Hc; [exact IH|].
  cbn [drop_while]. rewrite Hc. reflexivity.
Qed.

(** Where the scan stands: [k] characters of a match still to pass (all
    of them word characters), or none, and then a match may start only
    if [prev] is not a word character. *)
Lemma findall_from_runs s : forall k prev,
  all_chars is_word (substring 0 k s) = true ->
  k <= String.length s ->
  findall_from k prev s =
    filter is_token
      (runs is_word
         (match k with
          | O => if is_word_opt prev then drop_while is_word s else s
          | S _ => drop_while is_word (drop k s)
          end)).
Proof.
  induction s as [|c s IH]; intros k prev Hk Hlen.
  - destruct k; [|cbn in Hlen; lia]. cbn. destruct (is_word_opt prev); reflexivity.
  - assert (IH0 : forall p0, findall_from 0 p0 s =
              filter is_token
                (runs is_word (if is_word_opt p0 then drop_while is_word s else s))).
    { intros p0. apply (IH 0 p0); [destruct s; reflexivity|apply Nat.le_0_l]. }
    rewrite findall_from_unfold. destruct k as [|k].
    + rewrite match_at_spec. destruct (is_word_opt prev) eqn:Hprev.
      * (* inside a word that did not match *)
        rewrite (IH0 (Some c)).
        cbn [is_word_opt drop_while]. destruct (is_word c) eqn:Hc; [reflexivity|].
        rewrite runs_skip by assumption. reflexivity.
      * destruct (is_word c) eqn:Hc.
        -- (* a word starts here *)
           rewrite runs_cons by assumption. cbn [filter].
           unfold accept. cbn [take_while drop_while Nat.add].
           destruct (is_lower c) eqn:Hl.
           ++ cbn [String.length].
              destruct (is_word_opt (head_char (drop_while is_lower s))) eqn:Hend.
              ** (* letters followed by another word character *)
                 rewrite andb_false_r.
                 assert (Hw : is_token (String c (take_while is_word s)) = false).
                 { unfold is_token. cbn [all_chars]. rewrite (word_not_lower _ Hend).
                   rewrite !andb_false_r. reflexivity. }
                 rewrite Hw.
                 rewrite (IH0 (Some c)).
                 cbn [is_word_opt]. rewrite Hc. reflexivity.
              ** destruct (lower_prefix_is_word _ Hend) as [Ht Hd].
                 rewrite Ht, Hd. cbn [negb]. rewrite andb_true_r.
                 unfold is_token. cbn [String.length all_chars].
                 rewrite Hl, take_while_lower_word. rewrite andb_true_r.
                 destruct (2 <=? S (String.length (take_while is_lower s))) eqn:Hlen2.
                 --- f_equal. cbn [String.length]. rewrite Nat.sub_succ, Nat.sub_0_r.
                     apply Nat.leb_le in Hlen2.
                     destruct (String.length (take_while is_lower s)) as [|m] eqn:Hm; [lia|].
                     assert (Hsub : all_chars is_word (substring 0 (S m) s) = true).
                     { rewrite <- Hm. clear. induction s as [|d s IHs]; [reflexivity|].
                       cbn [take_while]. destruct (is_lower d) eqn:Hd'; [|reflexivity].
                       cbn [String.length substring all_chars].
                       rewrite (is_lower_word _ Hd'). exact IHs. }
                     assert (Hle : S m <= String.length s).
                     { rewrite <- Hm. clear. induction s as [|d s IHs]; [cbn; lia|].
                       cbn [take_while]. destruct (is_lower d); cbn [String.length]; lia. }
                     rewrite (IH (S m) (Some c) Hsub Hle).
                     rewrite <- Hm, drop_take_while, <- Hd. rewrite <- runs_drop_word.
                     reflexivity.
                 --- rewrite (IH0 (Some c)).
                     cbn [is_word_opt]. rewrite Hc, Hd. reflexivity.
           ++ (* the word starts with a character that is not a lowercase letter *)
              cbn [String.length Nat.leb andb].
              assert (Hw : is_token (String c (take_while is_word s)) = false).
              { unfold is_token. cbn [all_chars]. rewrite Hl. apply andb_false_r. }
              rewrite Hw.
              rewrite (IH0 (Some c)).
              cbn [is_word_opt]. rewrite Hc. reflexivity.
        -- (* not a word character *)
           rewrite runs_skip by assumption.
           unfold accept. cbn [take_while drop_while].
           assert (Hl : is_lower c = false).
           { destruct (is_lower c) eqn:Hl; [|reflexivity].
             rewrite (is_lower_word _ Hl) in Hc. discriminate. }
           rewrite Hl. cbn [String.length Nat.add Nat.leb andb].
           rewrite (IH0 (Some c)).
           cbn [is_word_opt]. rewrite Hc. reflexivity.
    + (* passing over the characters of a match *)
      cbn [substring all_chars] in Hk. apply andb_true_iff in Hk as [Hc Hk].
      cbn [String.length] in Hlen. cbn [drop].
      destruct k as [|k].
      * rewrite (IH0 (Some c)).
        cbn [is_word_opt drop]. rewrite Hc. reflexivity.
      * rewrite (IH (S k) (Some c)) by (try assumption; lia). reflexivity.
Qed.

(** C2, the claim as stated, at the text "abc123": its only run of
    lowercase letters is "abc", three letters long, and [tokenize]
    returns no token, because the digit that follows is a word character
    and the pattern ends on a word boundary. *)
Lemma tokenize_drops_letters_before_digit :
  tokenize "abc123" = [] /\ tokenize_as_specified "abc123" = ["abc"].
Proof. split; reflexivity. Qed.

(** C2, amended: for every text, [tokenize] lowercases the text and
    returns, in order, those of its maximal runs of word characters
    (the letters and digits [str.isalnum] accepts, accented letters
    included, and the underscore) that consist of the lowercase letters
    a to z only and have two letters or more; a run that also holds a
    digit, an underscore or an accented letter is dropped whole.  So
    "Hello WORLD 123" gives "hello" and "world", and "caf" followed by
    e with acute accent gives nothing. *)
Theorem tokenize_keeps_letter_words :
  (forall text, tokenize text = tokenize_by_words text)
  /\ tokenize "Hello WORLD 123" = ["hello"; "world"]
  /\ tokenize ("caf" ++ e_acute) = [].
Proof.
  split; [|split; reflexivity].
  intros text. unfold tokenize, tokenize_by_words.
  apply (findall_from_runs (str_lower text) 0 None); [|apply Nat.le_0_l].
  destruct (str_lower text); reflexivity.
Qed.

(* ------------------------------------------------------------------ *)
(** ** Chunker *)

Local Open Scope Z_scope.

(** C5 at short texts: the branch [len(text) <= chunk_size] returns the
    text as it is, neither trimmed nor dropped when blank or empty, while
    the loop for long texts strips every chunk and drops the empty ones
    ([chunk_long_text_trimmed]). *)
Theorem chunk_short_text_not_trimmed :
  (forall fuel, _optimized_chunk_text fuel "  hi  " 1000 200 = Some ["  hi  "])
  /\ strip "  hi  " = "hi"%string
  /\ (forall fuel, _optimized_chunk_text fuel "   " 1000 200 = Some ["   "])
  /\ strip "   " = ""%string
  /\ (forall fuel, _optimized_chunk_text fuel "" 1000 200 = Some [""%string]).
Proof. repeat split; reflexivity. Qed.

Lemma best_break_bounds ends start chunk_size end_ :
  let b := best_break ends start chunk_size end_ in
  b = end_ \/ (start + chunk_size / 2 < b <= end_).
Proof.
  unfold best_break.
  assert (G : forall best,
             (best = end_ \/ start + chunk_size / 2 < best <= end_) ->
             let b := fold_left
                        (fun best sent_end =>
                           if (start + chunk_size / 2 <? sent_end) && (sent_end <=? end_)
                           then sent_end else best) ends best in
             b = end_ \/ start + chunk_size / 2 < b <= end_).
  { induction ends as [|e ends IH]; intros best Hb; cbn [fold_left]; [exact Hb|].
    apply IH.
    destruct ((start + chunk_size / 2 <? e) && (e <=? end_)) eqn:E; [|exact Hb].
    apply andb_true_iff in E as [E1 E2].
    apply Z.ltb_lt in E1. apply Z.leb_le in E2. right. lia. }
  apply G. left. reflexivity.
Qed.

(** Each pass moves [start] forward when the overlap is at most half
    the chunk size. *)
Lemma chunk_step_progress text ends chunk_size overlap start chunks :
  1 <= chunk_size -> overlap <= chunk_size / 2 ->
  start < fst (chunk_step text ends chunk_size overlap start chunks).
Proof.
  intros Hcs Hov. unfold chunk_step. cbn [fst].
  assert (Hhalf : chunk_size / 2 + 1 <= chunk_size).
  { assert (chunk_size / 2 < chunk_size) by (apply Z.div_lt; lia). lia. }
  destruct (start + chunk_size <? slen text).
  - pose proof (best_break_bounds ends start chunk_size (start + chunk_size)) as Hb.
    cbv zeta in Hb. lia.
  - lia.
Qed.

Lemma chunk_loop_terminates text ends chunk_size overlap :
  1 <= chunk_size -> overlap <= chunk_size / 2 ->
  forall fuel start chunks,
    (Z.to_nat (slen text - start) < fuel)%nat ->
    exists result, chunk_loop fuel text ends chunk_size overlap start chunks = Some result.
Proof.
  intros Hcs Hov. induction fuel as [|fuel IH]; intros start chunks Hfuel; [lia|].
  cbn [chunk_loop]. destruct (start <? slen text) eqn:E.
  - apply Z.ltb_lt in E.
    pose proof (chunk_step_progress text ends chunk_size overlap start chunks Hcs Hov) as Hp.
    destruct (chunk_step text ends chunk_size overlap start chunks) as [start' chunks'].
    cbn [fst] in Hp. apply IH. lia.
  - eexists. reflexivity.
Qed.

(** C6, amended: with a chunk size of at least 1 and an overlap of at
    most half the chunk size (as with the defaults 1000 and 200), the
    chunker returns, after at most [len(text)] passes of its loop. *)
Theorem chunk_text_terminates text chunk_size overlap :
  1 <= chunk_size -> overlap <= chunk_size / 2 ->
  exists chunks,
    _optimized_chunk_text (S (String.length text)) text chunk_size overlap = Some chunks.
Proof.
  intros Hcs Hov. unfold _optimized_chunk_text.
  destruct (slen text <=? chunk_size); [eexists; reflexivity|].
  apply chunk_loop_terminates; try assumption. unfold slen. lia.
Qed.

Lemma chunk_text_terminates_witness :
  exists chunks,
    _optimized_chunk_text (S (String.length "One. Two. Three."))
      "One. Two. Three." 8 3 = Some chunks.
Proof. apply (chunk_text_terminates "One. Two. Three." 8 3); vm_compute; congruence. Defined.

(** The fuel that [chunk_default] gives is enough. *)
Lemma chunk_default_returns text :
  _optimized_chunk_text (S (String.length text)) text 1000 200 = Some (chunk_default text).
Proof.
  unfold chunk_default, _optimized_chunk_text.
  destruct (slen text <=? 1000); [reflexivity|].
  destruct (chunk_loop_terminates text (sentence_ends text) 1000 200)
    with (fuel := S (String.length text)) (start := 0) (chunks := @nil string)
    as [chunks ->]; [lia|apply Z.leb_le; reflexivity|unfold slen; lia|reflexivity].
Qed.

(** *** The chunks of a long text *)

Definition starts_without_space (s : string) : Prop :=
  match s with
  | String c _ => is_space c = false
  | EmptyString => True
  end.

Lemma lstrip_starts s : starts_without_space (lstrip s).
Proof.
  induction s as [|c s IH]; cbn [lstrip]; [exact I|].
  destruct (is_space c) eqn:E; [exact IH|exact E].
Qed.

Lemma lstrip_fixed s : starts_without_space s -> lstrip s = s.
Proof. destruct s as [|c s]; cbn; [trivial|]. intros ->. reflexivity. Qed.

Lemma rstrip_unfold c s :
  rstrip (String c s) =
    match rstrip s with
    | EmptyString => if is_space c then EmptyString else String c EmptyString
    | r => String c r
    end.
Proof. reflexivity. Qed.

Lemma rstrip_starts s : starts_without_space s -> starts_without_space (rstrip s).
Proof.
  destruct s as [|c s]; [trivial|]. cbn [starts_without_space]. intros Hc.
  rewrite rstrip_unfold, Hc. destruct (rstrip s); exact Hc.
Qed.

Lemma rstrip_idempotent s : rstrip (rstrip s) = rstrip s.
Proof.
  induction s as [|c s IH]; [reflexivity|].
  rewrite rstrip_unfold. destruct (rstrip s) as [|d r] eqn:E.
  - destruct (is_space c) eqn:Hc; [reflexivity|].
    rewrite rstrip_unfold. cbn [rstrip]. rewrite Hc. reflexivity.
  - rewrite rstrip_unfold, IH. reflexivity.
Qed.

Lemma strip_idempotent s : strip (strip s) = strip s.
Proof.
  unfold strip.
  rewrite (lstrip_fixed (rstrip (lstrip s))) by (apply rstrip_starts, lstrip_starts).
  apply rstrip_idempotent.
Qed.

(** A chunk as the specification wants it: trimmed and not empty. *)
Definition trimmed_chunk (chunk : string) : Prop :=
  chunk <> EmptyString /\ strip chunk = chunk.

Lemma chunk_step_trimmed text ends chunk_size overlap start chunks :
  Forall trimmed_chunk chunks ->
  Forall trimmed_chunk (snd (chunk_step text ends chunk_size overlap start chunks)).
Proof.
  intros Hc. unfold chunk_step. cbn [snd].
  match goal with
  | |- context [strip (py_slice text start ?e)] =>
      destruct (strip (py_slice text start e)) as [|c r] eqn:E
  end; [exact Hc|].
  apply Forall_app. split; [exact Hc|].
  constructor; [|constructor]. split; [discriminate|].
  rewrite <- E. apply strip_idempotent.
Qed.

Lemma chunk_loop_trimmed text ends chunk_size overlap fuel : forall start chunks result,
  Forall trimmed_chunk chunks ->
  chunk_loop fuel text ends chunk_size overlap start chunks = Some result ->
  Forall trimmed_chunk result.
Proof.
  induction fuel as [|fuel IH]; intros start chunks result Hc; cbn [chunk_loop];
    [discriminate|].
  destruct (start <? slen text); [|intros [= <-]; exact Hc].
  pose proof (chunk_step_trimmed text ends chunk_size overlap start chunks Hc) as Hs.
  destruct (chunk_step text ends chunk_size overlap start chunks) as [start' chunks'].
  apply IH. exact Hs.
Qed.

(** For a text longer than the chunk size every chunk returned is
    trimmed and not empty. *)
Theorem chunk_long_text_trimmed fuel text chunk_size overlap chunks :
  chunk_size < slen text ->
  _optimized_chunk_text fuel text chunk_size overlap = Some chunks ->
  Forall trimmed_chunk chunks.
Proof.
  intros Hlong. unfold _optimized_chunk_text.
  destruct (slen text <=? chunk_size) eqn:E; [apply Z.leb_le in E; lia|].
  apply chunk_loop_trimmed. constructor.
Qed.

Lemma chunk_long_text_trimmed_witness :
  Forall trimmed_chunk ["One."; "e. Two."; "o. Three"; "ree."]%string.
Proof.
  apply (chunk_long_text_trimmed 17 "One. Two. Three." 8 3); [reflexivity|].
  vm_compute. reflexivity.
Defined.

Lemma chunk_loop_stuck_2_2 fuel : forall chunks,
  chunk_loop fuel "abc" [] 2 2 0 chunks = None.
Proof.
  induction fuel as [|fuel IH]; intros chunks; [reflexivity|].
  cbn [chunk_loop]. change (0 <? slen "abc") with true. cbv iota.
  change (chunk_step "abc" [] 2 2 0 chunks) with (0, chunks ++ ["ab"%string]).
  apply IH.
Qed.

Lemma chunk_loop_stuck_10_6 fuel : forall chunks,
  chunk_loop fuel "aaaaa. aaaaaaaaaaaaaaaa" [7] 10 6 1 chunks = None.
Proof.
  induction fuel as [|fuel IH]; intros chunks; [reflexivity|].
  cbn [chunk_loop]. change (1 <? slen "aaaaa. aaaaaaaaaaaaaaaa") with true. cbv iota.
  change (chunk_step "aaaaa. aaaaaaaaaaaaaaaa" [7] 10 6 1 chunks)
    with (1, chunks ++ ["aaaa."%string]).
  apply IH.
Qed.

(** C6, the claim as stated: with chunk size 2 and overlap 2 the text
    "abc" keeps the window at 0, and no number of passes reaches the end
    of the loop.  An overlap below the chunk size does not help either:
    with chunk size 10 and overlap 6 the sentence end at 7 is chosen over
    and over from the window that starts at 1. *)
Lemma chunk_text_loops_forever :
  ~ (exists fuel chunks, _optimized_chunk_text fuel "abc" 2 2 = Some chunks)
  /\ ~ (exists fuel chunks,
          _optimized_chunk_text fuel "aaaaa. aaaaaaaaaaaaaaaa" 10 6 = Some chunks).
Proof.
  split; intros [fuel [chunks Hc]].
  - unfold _optimized_chunk_text in Hc.
    change (slen "abc" <=? 2) with false in Hc. cbv iota in Hc.
    change (sentence_ends "abc") with (@nil Z) in Hc.
    rewrite chunk_loop_stuck_2_2 in Hc. discriminate.
  - unfold _optimized_chunk_text in Hc.
    change (slen "aaaaa. aaaaaaaaaaaaaaaa" <=? 10) with false in Hc. cbv iota in Hc.
    change (sentence_ends "aaaaa. aaaaaaaaaaaaaaaa") with [7] in Hc.
    destruct fuel as [|fuel]; [discriminate|].
    cbn [chunk_loop] in Hc.
    change (0 <? slen "aaaaa. aaaaaaaaaaaaaaaa") with true in Hc. cbv iota in Hc.
    change (chunk_step "aaaaa. aaaaaaaaaaaaaaaa" [7] 10 6 0 [])
      with (1, ["aaaaa."%string]) in Hc.
    cbv beta iota in Hc.
    rewrite chunk_loop_stuck_10_6 in Hc. discriminate.
Qed.

(* ------------------------------------------------------------------ *)
(** ** Cosine similarity *)

Local Open Scope nat_scope.

Section CosineProperties.
Context {F : Type} `{PF : PyFloat F}.

Lemma cosine_pass_fold vec1 vec2 :
  cosine_pass vec1 vec2 = fold_left cosine_body (combine vec1 vec2) (f_zero, f_zero, f_zero).
Proof. reflexivity. Qed.

Definition swap (acc : F * F * F) : F * F * F :=
  let '(d, m1, m2) := acc in (d, m2, m1).

Lemma cosine_fold_swap (mul_comm : forall x y : F, f_mul x y = f_mul y x) u : forall v acc,
  fold_left cosine_body (combine v u) (swap acc)
  = swap (fold_left cosine_body (combine u v) acc).
Proof.
  induction u as [|a u IH]; intros [|b v] acc; try reflexivity.
  cbn [combine fold_left]. rewrite <- IH. f_equal.
  destruct acc as [[d m1] m2]. cbn. rewrite (mul_comm b a). reflexivity.
Qed.

(** Over vectors of one length the pass computes the two sums of
    squares and the dot product. *)
Lemma cosine_fold_sums u : forall v d m1 m2,
  length u = length v ->
  fold_left cosine_body (combine u v) (d, m1, m2)
  = (fold_left (fun acc '(a, b) => f_add acc (f_mul a b)) (combine u v) d,
     fold_left (fun acc x => f_add acc (f_mul x x)) u m1,
     fold_left (fun acc x => f_add acc (f_mul x x)) v m2).
Proof.
  induction u as [|a u IH]; intros [|b v] d m1 m2 Hlen; try discriminate; [reflexivity|].
  cbn [combine fold_left cosine_body]. apply IH. cbn in Hlen. congruence.
Qed.

Lemma cosine_fold_self v : forall d m,
  fold_left (fun acc '(a, b) => f_add acc (f_mul a b)) (combine v v) d = m ->
  fold_left (fun acc x => f_add acc (f_mul x x)) v d = m.
Proof.
  induction v as [|a v IH]; intros d m; cbn [combine fold_left]; [trivial|]. apply IH.
Qed.

Lemma cosine_pass_sums u v :
  length u = length v ->
  cosine_pass u v = (dot u v, sum_squares u, sum_squares v).
Proof. intros Hlen. rewrite cosine_pass_fold. apply cosine_fold_sums. exact Hlen. Qed.

Lemma dot_self v : dot v v = sum_squares v.
Proof. unfold dot, sum_squares. symmetry. apply cosine_fold_self. reflexivity. Qed.

(** The order of the two vectors does not matter, where the product of
    two floats does not depend on their order. *)
Lemma cosine_symmetric (mul_comm : forall x y : F, f_mul x y = f_mul y x) (u v : list F) :
  cosine_similarity_optimized u v = cosine_similarity_optimized v u.
Proof.
  unfold cosine_similarity_optimized. rewrite (cosine_pass_fold v u).
  change (f_zero, f_zero, f_zero) with (swap (f_zero, f_zero, f_zero)).
  rewrite (cosine_fold_swap mul_comm). rewrite <- cosine_pass_fold.
  destruct (cosine_pass u v) as [[d m1] m2]. cbn [swap].
  rewrite (orb_comm (f_eqb m2 f_zero)), (mul_comm (f_sqrt m2)). reflexivity.
Qed.

(** A squared magnitude of zero: 0.0, and no division. *)
Lemma cosine_zero_magnitude (u v : list F) :
  length u = length v ->
  f_eqb (sum_squares u) f_zero = true \/ f_eqb (sum_squares v) f_zero = true ->
  cosine_similarity_optimized u v = Normal f_zero.
Proof.
  intros Hlen Hz. unfold cosine_similarity_optimized.
  rewrite (cosine_pass_sums _ _ Hlen).
  destruct Hz as [-> | ->]; [reflexivity|rewrite orb_true_r; reflexivity].
Qed.

(** A vector with itself: its squared magnitude [m] over
    [sqrt m * sqrt m]. *)
Lemma cosine_self_quotient (v : list F) :
  f_eqb (sum_squares v) f_zero = false ->
  cosine_similarity_optimized v v
  = py_div (sum_squares v) (f_mul (f_sqrt (sum_squares v)) (f_sqrt (sum_squares v))).
Proof.
  intros Hnz. unfold cosine_similarity_optimized.
  rewrite (cosine_pass_sums v v eq_refl), dot_self, Hnz. reflexivity.
Qed.
End CosineProperties.

(** *** The rounding of binary64

    How far [m / (sqrt m * sqrt m)] is from 1 in binary64, from the
    definitions that specify the operations of the floats
    ([SFsqrt], [SFmul], [SFdiv] on mantissa and exponent): the root, its
    square and the quotient are each rounded once, to 53 digits. *)

Local Open Scope Z_scope.

Lemma digits2_pos_bounds p :
  2 ^ (Zpos (digits2_pos p) - 1) <= Zpos p < 2 ^ Zpos (digits2_pos p).
Proof.
  induction p as [p IH|p IH|]; cbn [digits2_pos]; [| |cbn; lia];
    rewrite Pos2Z.inj_succ;
    replace (Z.succ (Zpos (digits2_pos p)) - 1) with (Z.succ (Zpos (digits2_pos p) - 1))
      by lia;
    rewrite !Z.pow_succ_r by lia; lia.
Qed.

Lemma Zdigits2_unique m d :
  0 < d -> 2 ^ (d - 1) <= m < 2 ^ d -> Zdigits2 m = d.
Proof.
  intros Hd Hm.
  assert (Hpos : 0 < m). { assert (0 < 2 ^ (d - 1)) by (apply Z.pow_pos_nonneg; lia). lia. }
  destruct m as [|p|p]; try lia. cbn [Zdigits2].
  pose proof (digits2_pos_bounds p) as Hp.
  assert (H1 : Zpos (digits2_pos p) - 1 < d).
  { apply (Z.pow_lt_mono_r_iff 2); lia. }
  assert (H2 : d - 1 < Zpos (digits2_pos p)).
  { apply (Z.pow_lt_mono_r_iff 2); lia. }
  lia.
Qed.

Lemma shr_1_nonneg m r s :
  0 <= m ->
  shr_m (shr_1 (Build_shr_record m r s)) = m / 2.
Proof.
  intros Hm. rewrite <- Z.div2_div. destruct m as [|[p|p|]|p]; try reflexivity. lia.
Qed.

Lemma div_pow2_twice a j k :
  0 <= j -> 0 <= k -> a / 2 ^ j / 2 ^ k = a / 2 ^ (j + k).
Proof.
  intros Hj Hk.
  assert (0 < 2 ^ j) by (apply Z.pow_pos_nonneg; lia).
  assert (0 < 2 ^ k) by (apply Z.pow_pos_nonneg; lia).
  rewrite Z.pow_add_r by lia. apply Z.div_div; lia.
Qed.

Lemma div_pow2_nonneg a k : 0 <= a -> 0 <= k -> 0 <= a / 2 ^ k.
Proof.
  intros Ha Hk. apply Z.div_pos; [exact Ha|apply Z.pow_pos_nonneg; lia].
Qed.

Lemma shr_m_iter p : forall mrs,
  0 <= shr_m mrs -> shr_m (SpecFloat.iter_pos shr_1 p mrs) = shr_m mrs / 2 ^ Zpos p.
Proof.
  induction p as [p IH|p IH|]; intros [m r s] Hm; cbn [SpecFloat.iter_pos shr_m] in *.
  - pose proof (shr_1_nonneg m r s Hm) as H1.
    assert (H2 : 0 <= m / 2) by (apply Z.div_pos; lia).
    rewrite IH.
    + rewrite IH by (rewrite H1; exact H2).
      rewrite H1. change (m / 2) with (m / 2 ^ 1).
      rewrite !div_pow2_twice by lia. f_equal. f_equal. lia.
    + rewrite IH by (rewrite H1; exact H2). rewrite H1.
      apply div_pow2_nonneg; lia.
  - rewrite IH.
    + rewrite IH by exact Hm. cbn [shr_m].
      rewrite div_pow2_twice by lia. f_equal. f_equal. lia.
    + rewrite IH by exact Hm. cbn [shr_m]. apply div_pow2_nonneg; lia.
  - apply shr_1_nonneg. exact Hm.
Qed.

Lemma round_nearest_even_faithful a l :
  round_nearest_even a l = a \/ round_nearest_even a l = a + 1.
Proof.
  destruct l as [|[| |]]; cbn [round_nearest_even]; try (left; reflexivity);
    [destruct (Z.even a); [left|right]; reflexivity|right; reflexivity].
Qed.

Lemma loc_of_record_of_loc m l : loc_of_shr_record (shr_record_of_loc m l) = l.
Proof. destruct l as [|[| |]]; reflexivity. Qed.

(** The float that [binary_round_aux] ends on, from the rounded
    mantissa [r] and its exponent. *)
Definition finish (r e : Z) : spec_float :=
  if r =? 2 ^ 53 then S754_finite false (Z.to_pos (2 ^ 52)) (e + 1)
  else S754_finite false (Z.to_pos r) e.

(** A positive mantissa of [53 + n] digits, in the range of the normal
    numbers: [n] digits are shifted out, and the mantissa that is left
    is kept or incremented. *)
Lemma binary_round_aux_normal mx ex lx n :
  0 <= n ->
  2 ^ (52 + n) <= mx < 2 ^ (53 + n) ->
  -1074 <= ex + n -> ex + n + 1 <= 971 ->
  exists r,
    binary_round_aux prec emax false mx ex lx = finish r (ex + n)
    /\ (r = mx / 2 ^ n \/ r = mx / 2 ^ n + 1)
    /\ (n = 0 -> r = round_nearest_even mx lx).
Proof.
  intros Hn Hmx Hlo Hhi.
  assert (Hdig : Zdigits2 mx = 53 + n).
  { apply Zdigits2_unique; [lia|]. replace (53 + n - 1) with (52 + n) by lia. exact Hmx. }
  assert (Hmx0 : 0 < mx).
  { assert (0 < 2 ^ (52 + n)) by (apply Z.pow_pos_nonneg; lia). lia. }
  unfold binary_round_aux, shr_fexp. rewrite Hdig.
  assert (Hfexp : fexp prec emax (53 + n + ex) - ex = n).
  { unfold fexp, emin, prec, emax. lia. }
  rewrite Hfexp.
  set (mrs := fst (shr (shr_record_of_loc mx lx) ex n)).
  assert (Hshr : shr (shr_record_of_loc mx lx) ex n = (mrs, ex + n)).
  { unfold mrs, shr. destruct n as [|p|p]; try lia; cbn [fst]; f_equal; lia. }
  assert (Hm : shr_m mrs = mx / 2 ^ n).
  { unfold mrs, shr. destruct n as [|p|p]; try lia; cbn [fst].
    - rewrite Z.div_1_r. destruct lx as [|[| |]]; reflexivity.
    - rewrite shr_m_iter; destruct lx as [|[| |]]; cbn [shr_record_of_loc shr_m]; lia. }
  rewrite Hshr.
  set (r := round_nearest_even (shr_m mrs) (loc_of_shr_record mrs)).
  assert (Ha : 2 ^ 52 <= mx / 2 ^ n < 2 ^ 53).
  { assert (Hp : 0 < 2 ^ n) by (apply Z.pow_pos_nonneg; lia).
    rewrite !Z.pow_add_r in Hmx by lia. split.
    - apply Z.div_le_lower_bound; lia.
    - apply Z.div_lt_upper_bound; lia. }
  assert (Hr : r = mx / 2 ^ n \/ r = mx / 2 ^ n + 1).
  { unfold r. rewrite <- Hm. apply round_nearest_even_faithful. }
  exists r. split; [|split; [exact Hr|]].
  - unfold finish. destruct (r =? 2 ^ 53) eqn:E.
    + apply Z.eqb_eq in E. rewrite E.
      change (Zdigits2 (2 ^ 53)) with 54.
      replace (fexp prec emax (54 + (ex + n)) - (ex + n)) with 1
        by (unfold fexp, emin, prec, emax; lia).
      cbn [shr_record_of_loc shr SpecFloat.iter_pos].
      change (shr_m (shr_1 {| shr_m := 2 ^ 53; shr_r := false; shr_s := false |}))
        with (2 ^ 52).
      change (2 ^ 52) with (Zpos (Z.to_pos (2 ^ 52))).
      replace (ex + n + 1 <=? emax - prec) with true
        by (symmetry; apply Z.leb_le; unfold emax, prec; lia).
      reflexivity.
    + apply Z.eqb_neq in E.
      assert (Hr53 : 2 ^ 52 <= r < 2 ^ 53) by lia.
      rewrite (Zdigits2_unique r 53) by (try lia; exact Hr53).
      replace (fexp prec emax (53 + (ex + n)) - (ex + n)) with 0
        by (unfold fexp, emin, prec, emax; lia).
      cbn [shr_record_of_loc shr shr_m].
      destruct r as [|p|p]; try lia.
      replace (ex + n <=? emax - prec) with true
        by (symmetry; apply Z.leb_le; unfold emax, prec; lia).
      reflexivity.
  - intros ->. unfold r, mrs. cbn [shr fst]. rewrite loc_of_record_of_loc.
    destruct lx as [|[| |]]; reflexivity.
Qed.

(** *** The square root of a normal number *)

Lemma SFsqrt_normal (M : positive) (E : Z) :
  2 ^ 52 <= Zpos M < 2 ^ 53 -> -1074 <= E <= 971 ->
  exists R Es,
    SFsqrt prec emax (S754_finite false M E) = S754_finite false R Es
    /\ 2 ^ 52 <= Zpos R < 2 ^ 53
    /\ 50 <= E - 2 * Es <= 53
    /\ Z.abs (Zpos M * 2 ^ (E - 2 * Es) - Zpos R * Zpos R) <= 2 * Zpos R.
Proof.
  intros HM HE. unfold SFsqrt, SFsqrt_core_binary.
  rewrite (Zdigits2_unique (Zpos M) 53) by (try lia; exact HM).
  rewrite !Z.div2_div.
  set (k := E / 2).
  assert (Hk : E = 2 * k \/ E = 2 * k + 1).
  { unfold k. pose proof (Z.div_mod E 2 ltac:(lia)). pose proof (Z.mod_pos_bound E 2 ltac:(lia)).
    lia. }
  assert (Hk27 : (53 + E + 1) / 2 = k + 27).
  { unfold k. replace (53 + E + 1) with (E + 27 * 2) by lia.
    rewrite Z.div_add by lia. reflexivity. }
  rewrite Hk27.
  replace (Z.min (fexp prec emax (k + 27)) k) with (k - 26)
    by (unfold fexp, emin, prec, emax; lia).
  assert (Hcore : exists s0 q r,
             (s0 = 52 \/ s0 = 53) /\ E - 2 * (k - 26) = s0
             /\ (let (q0, r0) :=
                   Z.sqrtrem match E - 2 * (k - 26) with
                             | Z.pos _ => Z.shiftl (Zpos M) (E - 2 * (k - 26))
                             | 0 => Zpos M
                             | Z.neg _ => 0
                             end in
                 (q0, k - 26,
                  if r0 =? 0 then loc_Exact
                  else loc_Inexact (if r0 <=? q0 then Lt else Gt)))
                = (q, k - 26,
                   if r =? 0 then loc_Exact else loc_Inexact (if r <=? q then Lt else Gt))
             /\ Zpos M * 2 ^ s0 = q * q + r /\ 0 <= r <= 2 * q).
  { destruct Hk as [Hk|Hk].
    - exists 52. replace (E - 2 * (k - 26)) with 52 by lia.
      rewrite Z.shiftl_mul_pow2 by lia.
      pose proof (Z.sqrtrem_spec (Zpos M * 2 ^ 52) ltac:(lia)) as Hs.
      destruct (Z.sqrtrem (Zpos M * 2 ^ 52)) as [q r]. exists q, r.
      split; [left; reflexivity|]. split; [reflexivity|]. split; [reflexivity|exact Hs].
    - exists 53. replace (E - 2 * (k - 26)) with 53 by lia.
      rewrite Z.shiftl_mul_pow2 by lia.
      pose proof (Z.sqrtrem_spec (Zpos M * 2 ^ 53) ltac:(lia)) as Hs.
      destruct (Z.sqrtrem (Zpos M * 2 ^ 53)) as [q r]. exists q, r.
      split; [right; reflexivity|]. split; [reflexivity|]. split; [reflexivity|exact Hs]. }
  destruct Hcore as [s0 [q [r [Hs0 [Es0 [-> [Hqr Hr]]]]]]].
  assert (Hq : 2 ^ 52 <= q < 2 ^ 53).
  { assert (Hm' : 2 ^ 104 <= Zpos M * 2 ^ s0 < 2 ^ 106).
    { destruct Hs0 as [-> | ->]; lia. }
    split.
    - destruct (Z.le_gt_cases (2 ^ 52) q) as [H|H]; [exact H|exfalso].
      assert (q * q <= (2 ^ 52 - 1) * (2 ^ 52 - 1)) by (apply Z.mul_le_mono_nonneg; lia).
      lia.
    - destruct (Z.lt_ge_cases q (2 ^ 53)) as [H|H]; [exact H|exfalso].
      assert (2 ^ 53 * 2 ^ 53 <= q * q) by (apply Z.mul_le_mono_nonneg; lia).
      lia. }
  destruct (binary_round_aux_normal q (k - 26)
              (if r =? 0 then loc_Exact else loc_Inexact (if r <=? q then Lt else Gt)) 0)
    as [r1 [Hround [Hr1 _]]]; try lia.
  rewrite Z.add_0_r in Hround. rewrite Hround.
  rewrite Z.pow_0_r, Z.div_1_r in Hr1.
  unfold finish. destruct (r1 =? 2 ^ 53) eqn:E53.
  - apply Z.eqb_eq in E53.
    exists (Z.to_pos (2 ^ 52)), (k - 26 + 1).
    split; [reflexivity|]. change (Zpos (Z.to_pos (2 ^ 52))) with (2 ^ 52).
    split; [lia|]. split; [lia|].
    assert (Hq' : q = 2 ^ 53 - 1) by lia. subst q.
    destruct Hs0 as [-> | ->].
    + replace (E - 2 * (k - 26 + 1)) with 50 by lia. lia.
    + replace (E - 2 * (k - 26 + 1)) with 51 by lia. lia.
  - apply Z.eqb_neq in E53.
    assert (Hr1' : 2 ^ 52 <= r1 < 2 ^ 53) by lia.
    destruct r1 as [|p1|p1]; try lia.
    exists p1, (k - 26). split; [reflexivity|].
    split; [exact Hr1'|]. split; [lia|].
    rewrite Es0.
    destruct Hr1 as [Hr1|Hr1]; rewrite Hr1; rewrite Hqr.
    + apply Z.abs_le. lia.
    + apply Z.abs_le. replace ((q + 1) * (q + 1)) with (q * q + 2 * q + 1) by ring. lia.
Qed.

(** *** The square of a normal number *)

Lemma SFmul_square_normal (R : positive) (Es : Z) :
  2 ^ 52 <= Zpos R < 2 ^ 53 -> -1126 <= 2 * Es -> 2 * Es + 54 <= 971 ->
  exists P Ep,
    SFmul prec emax (S754_finite false R Es) (S754_finite false R Es)
    = S754_finite false P Ep
    /\ 2 ^ 52 <= Zpos P < 2 ^ 53
    /\ 52 <= Ep - 2 * Es <= 54
    /\ Z.abs (Zpos P * 2 ^ (Ep - 2 * Es) - Zpos R * Zpos R) <= 2 ^ 53.
Proof.
  intros HR Hlo Hhi. unfold SFmul. cbn [xorb]. rewrite Pos2Z.inj_mul.
  set (p0 := Zpos R * Zpos R).
  assert (Hp0 : 2 ^ 104 <= p0 < 2 ^ 106).
  { unfold p0. split.
    - change (2 ^ 104) with (2 ^ 52 * 2 ^ 52). apply Z.mul_le_mono_nonneg; lia.
    - change (2 ^ 106) with (2 ^ 53 * 2 ^ 53). apply Z.mul_lt_mono_nonneg; lia. }
  assert (Hn : exists n, (n = 52 \/ n = 53) /\ 2 ^ (52 + n) <= p0 < 2 ^ (53 + n)).
  { destruct (Z.lt_ge_cases p0 (2 ^ 105)) as [H|H].
    - exists 52. split; [left; reflexivity|]. change (52 + 52) with 104.
      change (53 + 52) with 105. lia.
    - exists 53. split; [right; reflexivity|]. change (52 + 53) with 105.
      change (53 + 53) with 106. lia. }
  destruct Hn as [n [Hn Hrange]].
  replace (Es + Es) with (2 * Es) by lia.
  destruct (binary_round_aux_normal p0 (2 * Es) loc_Exact n) as [r [Hround [Hr _]]];
    try lia.
  rewrite Hround.
  assert (Hpow : 0 < 2 ^ n) by (apply Z.pow_pos_nonneg; lia).
  pose proof (Z.div_mod p0 (2 ^ n) ltac:(lia)) as Hdm.
  pose proof (Z.mod_pos_bound p0 (2 ^ n) Hpow) as Hmod.
  assert (Ha : 2 ^ 52 <= p0 / 2 ^ n < 2 ^ 53).
  { rewrite !Z.pow_add_r in Hrange by lia. split.
    - apply Z.div_le_lower_bound; lia.
    - apply Z.div_lt_upper_bound; lia. }
  assert (Hn53 : 2 ^ n <= 2 ^ 53) by (destruct Hn as [-> | ->]; lia).
  unfold finish. destruct (r =? 2 ^ 53) eqn:E53.
  - apply Z.eqb_eq in E53.
    exists (Z.to_pos (2 ^ 52)), (2 * Es + n + 1).
    split; [reflexivity|]. change (Zpos (Z.to_pos (2 ^ 52))) with (2 ^ 52).
    split; [lia|]. split; [lia|].
    replace (2 * Es + n + 1 - 2 * Es) with (n + 1) by lia.
    rewrite Z.pow_add_r by lia. change (2 ^ 1) with 2.
    apply Z.abs_le. fold p0. lia.
  - apply Z.eqb_neq in E53.
    assert (Hr' : 2 ^ 52 <= r < 2 ^ 53) by lia.
    destruct r as [|p1|p1]; try lia.
    exists p1, (2 * Es + n). split; [reflexivity|].
    split; [exact Hr'|]. split; [lia|].
    replace (2 * Es + n - 2 * Es) with n by lia.
    apply Z.abs_le. fold p0. lia.
Qed.

(** *** The quotient of two normal numbers *)

Lemma SFdiv_normal (M P : positive) (E Ep : Z) :
  2 ^ 52 <= Zpos M < 2 ^ 53 -> 2 ^ 52 <= Zpos P < 2 ^ 53 ->
  -4 <= E - Ep <= 4 ->
  exists r n,
    SFdiv prec emax (S754_finite false M E) (S754_finite false P Ep)
    = finish r (E - Ep - 53 + n)
    /\ (n = 0 \/ n = 1)
    /\ 2 ^ (52 + n) <= Zpos M * 2 ^ 53 / Zpos P < 2 ^ (53 + n)
    /\ (r = Zpos M * 2 ^ 53 / Zpos P / 2 ^ n \/ r = Zpos M * 2 ^ 53 / Zpos P / 2 ^ n + 1).
Proof.
  intros HM HP Hd. unfold SFdiv, SFdiv_core_binary. cbn [xorb].
  rewrite (Zdigits2_unique (Zpos M) 53) by (try lia; exact HM).
  rewrite (Zdigits2_unique (Zpos P) 53) by (try lia; exact HP).
  replace (53 + E - (53 + Ep)) with (E - Ep) by lia.
  replace (Z.min (fexp prec emax (E - Ep)) (E - Ep)) with (E - Ep - 53)
    by (unfold fexp, emin, prec, emax; lia).
  replace (E - Ep - (E - Ep - 53)) with 53 by lia.
  cbv iota. rewrite Z.shiftl_mul_pow2 by lia.
  set (q := Zpos M * 2 ^ 53 / Zpos P).
  assert (Hdiv : Z.div_eucl (Zpos M * 2 ^ 53) (Zpos P)
                 = (q, snd (Z.div_eucl (Zpos M * 2 ^ 53) (Zpos P)))).
  { unfold q, Z.div. destruct (Z.div_eucl (Zpos M * 2 ^ 53) (Zpos P)); reflexivity. }
  rewrite Hdiv.
  assert (Hq : 2 ^ 52 <= q < 2 ^ 54).
  { unfold q. split.
    - apply Z.div_le_lower_bound; lia.
    - apply Z.div_lt_upper_bound; lia. }
  assert (Hn : exists n, (n = 0 \/ n = 1) /\ 2 ^ (52 + n) <= q < 2 ^ (53 + n)).
  { destruct (Z.lt_ge_cases q (2 ^ 53)) as [H|H].
    - exists 0. split; [left; reflexivity|]. cbn [Z.add]. lia.
    - exists 1. split; [right; reflexivity|]. change (52 + 1) with 53.
      change (53 + 1) with 54. lia. }
  destruct Hn as [n [Hn Hrange]].
  destruct (binary_round_aux_normal q (E - Ep - 53)
              (new_location (Zpos P) (snd (Z.div_eucl (Zpos M * 2 ^ 53) (Zpos P)))) n)
    as [r [Hround [Hr _]]]; try lia.
  exists r, n. split; [exact Hround|]. split; [exact Hn|]. split; [exact Hrange|exact Hr].
Qed.

(** *** A quotient near one *)

(** 1 - 2^-49 and 1 + 2^-49 *)
Definition below_one : spec_float := S754_finite false 9007199254740976 (-53).
Definition above_one : spec_float := S754_finite false 4503599627370504 (-52).

Lemma SFleb_same_exponent (a b : positive) e :
  SFleb (S754_finite false a e) (S754_finite false b e) = true <-> (Zpos a <= Zpos b).
Proof.
  unfold SFleb, SFcompare. rewrite Z.compare_refl.
  change (Pos.compare_cont Eq a b) with (Pos.compare a b).
  destruct (Pos.compare_spec a b) as [Hc|Hc|Hc]; split; intros H; try reflexivity; try discriminate; lia.
Qed.

Lemma SFleb_lower_exponent (a b : positive) e e' :
  e < e' -> SFleb (S754_finite false a e) (S754_finite false b e') = true.
Proof.
  intros He. unfold SFleb, SFcompare.
  apply Z.compare_lt_iff in He. rewrite He. reflexivity.
Qed.

Lemma finish_near_one r e :
  (e = -53 /\ 2 ^ 53 - 16 <= r <= 2 ^ 53) \/ (e = -52 /\ 2 ^ 52 <= r <= 2 ^ 52 + 8) ->
  SFleb below_one (finish r e) = true /\ SFleb (finish r e) above_one = true.
Proof.
  intros Hr. unfold finish. destruct (r =? 2 ^ 53) eqn:E53.
  - apply Z.eqb_eq in E53. destruct Hr as [[-> _]|[_ Hr]]; [|exfalso; lia].
    split; vm_compute; reflexivity.
  - apply Z.eqb_neq in E53. unfold below_one, above_one.
    destruct Hr as [[-> Hr]|[-> Hr]].
    + destruct r as [|p|p]; try (exfalso; lia). cbn [Z.to_pos]. split.
      * apply SFleb_same_exponent. lia.
      * apply SFleb_lower_exponent. lia.
    + destruct r as [|p|p]; try (exfalso; lia). cbn [Z.to_pos]. split.
      * apply SFleb_lower_exponent. lia.
      * apply SFleb_same_exponent. lia.
Qed.

(** The quotient of a normal number [m] by the rounded square of its
    rounded square root. *)
Lemma self_quotient_near_one (M : positive) (E : Z) :
  2 ^ 52 <= Zpos M < 2 ^ 53 -> -1074 <= E <= 967 ->
  let m := S754_finite false M E in
  let s := SFsqrt prec emax m in
  exists P Ep,
    SFmul prec emax s s = S754_finite false P Ep
    /\ SFleb below_one (SFdiv prec emax m (S754_finite false P Ep)) = true
    /\ SFleb (SFdiv prec emax m (S754_finite false P Ep)) above_one = true.
Proof.
  intros HM HE m s. unfold s, m.
  destruct (SFsqrt_normal M E HM ltac:(lia)) as [R [Es [-> [HR [Ht Hsq]]]]].
  destruct (SFmul_square_normal R Es HR ltac:(lia) ltac:(lia))
    as [P [Ep [-> [HP [Hu Hmul]]]]].
  exists P, Ep. split; [reflexivity|].
  destruct (SFdiv_normal M P E Ep HM HP ltac:(lia)) as [r [n [-> [Hn [Hq Hr]]]]].
  apply finish_near_one.
  set (q := Zpos M * 2 ^ 53 / Zpos P) in *.
  set (t := E - 2 * Es) in *. set (u := Ep - 2 * Es) in *.
  replace (E - Ep) with (t - u) by (unfold t, u; lia).
  assert (Hclose : - (3 * 2 ^ 53) <= Zpos M * 2 ^ t - Zpos P * 2 ^ u <= 3 * 2 ^ 53).
  { apply Z.abs_le in Hsq, Hmul. lia. }
  clearbody t u. clear Hsq Hmul HE.
  assert (Ht' : t = 50 \/ t = 51 \/ t = 52 \/ t = 53) by lia.
  assert (Hu' : u = 52 \/ u = 53 \/ u = 54) by lia.
  assert (Hdiv : forall k, Zpos P * k <= Zpos M * 2 ^ 53 -> k <= q).
  { intros k Hk. unfold q. apply Z.div_le_lower_bound; lia. }
  assert (Hdiv' : forall k, Zpos M * 2 ^ 53 < Zpos P * k -> q < k).
  { intros k Hk. unfold q. apply Z.div_lt_upper_bound; lia. }
  clearbody q.
  destruct Ht' as [-> | [-> | [-> | ->]]]; destruct Hu' as [-> | [-> | ->]];
    try (exfalso; lia).
  - (* t = 51, u = 52 *)
    pose proof (Hdiv (2 ^ 54 - 24) ltac:(lia)) as Hlo.
    destruct Hn as [-> | ->]; [exfalso; cbn [Z.add] in Hq; lia|].
    left. split; [reflexivity|]. change (2 ^ 1) with 2 in Hr.
    change (53 + 1) with 54 in Hq.
    assert (2 ^ 53 - 12 <= q / 2 < 2 ^ 53) by (split; [apply Z.div_le_lower_bound|apply Z.div_lt_upper_bound]; lia).
    lia.
  - (* t = 52, u = 52 *)
    pose proof (Hdiv (2 ^ 53 - 12) ltac:(lia)) as Hlo.
    pose proof (Hdiv' (2 ^ 53 + 13) ltac:(lia)) as Hhi.
    destruct Hn as [-> | ->].
    + left. split; [reflexivity|]. rewrite Z.pow_0_r, Z.div_1_r in Hr.
      cbn [Z.add] in Hq. lia.
    + right. split; [reflexivity|]. change (2 ^ 1) with 2 in Hr.
      change (52 + 1) with 53 in Hq.
      assert (2 ^ 52 <= q / 2 <= 2 ^ 52 + 6)
        by (split; [apply Z.div_le_lower_bound|apply Z.lt_succ_r, Z.div_lt_upper_bound]; lia).
      lia.
  - (* t = 52, u = 53 *)
    pose proof (Hdiv (2 ^ 54 - 12) ltac:(lia)) as Hlo.
    destruct Hn as [-> | ->]; [exfalso; cbn [Z.add] in Hq; lia|].
    left. split; [reflexivity|]. change (2 ^ 1) with 2 in Hr.
    change (53 + 1) with 54 in Hq.
    assert (2 ^ 53 - 6 <= q / 2 < 2 ^ 53) by (split; [apply Z.div_le_lower_bound|apply Z.div_lt_upper_bound]; lia).
    lia.
  - (* t = 53, u = 52 *)
    pose proof (Hdiv' (2 ^ 52 + 7) ltac:(lia)) as Hhi.
    destruct Hn as [-> | ->]; [|exfalso; change (52 + 1) with 53 in Hq; lia].
    right. split; [reflexivity|]. rewrite Z.pow_0_r, Z.div_1_r in Hr.
    cbn [Z.add] in Hq. lia.
  - (* t = 53, u = 53 *)
    pose proof (Hdiv (2 ^ 53 - 6) ltac:(lia)) as Hlo.
    pose proof (Hdiv' (2 ^ 53 + 7) ltac:(lia)) as Hhi.
    destruct Hn as [-> | ->].
    + left. split; [reflexivity|]. rewrite Z.pow_0_r, Z.div_1_r in Hr.
      cbn [Z.add] in Hq. lia.
    + right. split; [reflexivity|]. change (2 ^ 1) with 2 in Hr.
      change (52 + 1) with 53 in Hq.
      assert (2 ^ 52 <= q / 2 <= 2 ^ 52 + 3)
        by (split; [apply Z.div_le_lower_bound|apply Z.lt_succ_r, Z.div_lt_upper_bound]; lia).
      lia.
  - (* t = 53, u = 54 *)
    pose proof (Hdiv (2 ^ 54 - 6) ltac:(lia)) as Hlo.
    destruct Hn as [-> | ->]; [exfalso; cbn [Z.add] in Hq; lia|].
    left. split; [reflexivity|]. change (2 ^ 1) with 2 in Hr.
    change (53 + 1) with 54 in Hq.
    assert (2 ^ 53 - 3 <= q / 2 < 2 ^ 53) by (split; [apply Z.div_le_lower_bound|apply Z.div_lt_upper_bound]; lia).
    lia.
Qed.

(** *** On the floats of the kernel *)

Lemma SFcompare_positive (m1 m2 : positive) (e1 e2 : Z) :
  SFcompare (S754_finite false m1 e1) (S754_finite false m2 e2)
  = Some (match e1 ?= e2 with
          | Lt => Lt
          | Gt => Gt
          | Eq => (m1 ?= m2)%positive
          end).
Proof.
  unfold SFcompare. destruct (e1 ?= e2); reflexivity.
Qed.

(** A float from the smallest normal number up to, and without,
    2^1020: a mantissa of 53 digits and an exponent in range. *)
Lemma normal_range (x : spec_float) :
  valid_binary x = true ->
  SFleb (S754_finite false (Z.to_pos (2 ^ 52)) (-1074)) x = true ->
  SFltb x (S754_finite false (Z.to_pos (2 ^ 52)) 968) = true ->
  exists M E, x = S754_finite false M E /\ 2 ^ 52 <= Zpos M < 2 ^ 53 /\ -1074 <= E <= 967.
Proof.
  intros Hvalid Hlo Hhi.
  destruct x as [s|s| |s M E].
  - destruct s; discriminate Hlo.
  - destruct s; [discriminate Hlo|discriminate Hhi].
  - discriminate Hlo.
  - destruct s; [discriminate Hlo|].
    exists M, E. split; [reflexivity|].
    unfold valid_binary, SpecFloat.valid_binary, bounded, canonical_mantissa in Hvalid.
    apply andb_true_iff in Hvalid as [Hcanon Hmax].
    apply Z.eqb_eq in Hcanon. apply Z.leb_le in Hmax.
    unfold fexp, emin, prec, emax in Hcanon, Hmax.
    pose proof (digits2_pos_bounds M) as Hd.
    unfold SFleb in Hlo. unfold SFltb in Hhi.
    rewrite SFcompare_positive in Hlo, Hhi.
    assert (Hpos : Zpos (Z.to_pos (2 ^ 52)) = 2 ^ 52) by reflexivity.
    remember (Z.to_pos (2 ^ 52)) as two52 eqn:Htwo. clear Htwo.
    assert (HloE : -1074 < E \/ (E = -1074 /\ 2 ^ 52 <= Zpos M)).
    { revert Hlo.
      destruct (Z.compare_spec (-1074) E) as [He|He|He].
      - destruct (Pos.compare_spec two52 M) as [Hc|Hc|Hc]; intros Hlo.
        + right. split; [lia|]. rewrite <- Hc, Hpos. lia.
        + right. split; [lia|]. apply Pos2Z.pos_lt_pos in Hc. lia.
        + discriminate Hlo.
      - intros _. left. exact He.
      - intros Hlo. discriminate Hlo. }
    assert (HhiE : E < 968 \/ (E = 968 /\ Zpos M < 2 ^ 52)).
    { revert Hhi.
      destruct (Z.compare_spec E 968) as [He|He|He].
      - destruct (Pos.compare_spec M two52) as [Hc|Hc|Hc]; intros Hhi.
        + discriminate Hhi.
        + right. split; [exact He|]. apply Pos2Z.pos_lt_pos in Hc. lia.
        + discriminate Hhi.
      - intros _. left. exact He.
      - intros Hhi. discriminate Hhi. }
    clear Hlo Hhi.
    assert (Hdig : Zpos (digits2_pos M) = 53).
    { destruct HloE as [He|[He HM]]; [lia|].
      assert (52 < Zpos (digits2_pos M)).
      { apply (Z.pow_lt_mono_r_iff 2); lia. }
      lia. }
    rewrite Hdig in Hd. change (53 - 1) with 52 in Hd.
    split; [exact Hd|]. lia.
Qed.

Lemma Prim2SF_smallest_normal :
  Prim2SF 0x1p-1022%float = S754_finite false (Z.to_pos (2 ^ 52)) (-1074).
Proof. vm_compute. reflexivity. Qed.

Lemma Prim2SF_two_1020 :
  Prim2SF 0x1p1020%float = S754_finite false (Z.to_pos (2 ^ 52)) 968.
Proof. vm_compute. reflexivity. Qed.

Lemma Prim2SF_below_one : Prim2SF 0x1.ffffffffffff0p-1%float = below_one.
Proof. vm_compute. reflexivity. Qed.

Lemma Prim2SF_above_one : Prim2SF 0x1.0000000000008p+0%float = above_one.
Proof. vm_compute. reflexivity. Qed.

Lemma Prim2SF_zero : Prim2SF 0%float = S754_zero false.
Proof. vm_compute. reflexivity. Qed.

Lemma binary64_self_quotient (m : float) :
  (0x1p-1022 <=? m)%float = true ->
  (m <? 0x1p1020)%float = true ->
  (m =? 0)%float = false
  /\ (sqrt m * sqrt m =? 0)%float = false
  /\ (0x1.ffffffffffff0p-1 <=? m / (sqrt m * sqrt m))%float = true
  /\ (m / (sqrt m * sqrt m) <=? 0x1.0000000000008p+0)%float = true.
Proof.
  intros Hlo Hhi.
  rewrite FloatAxioms.leb_spec, Prim2SF_smallest_normal in Hlo.
  rewrite FloatAxioms.ltb_spec, Prim2SF_two_1020 in Hhi.
  destruct (normal_range (Prim2SF m) (Prim2SF_valid m) Hlo Hhi) as [M [E [Hm [HM HE]]]].
  destruct (self_quotient_near_one M E HM HE) as [P [Ep [Hmul [Hbelow Habove]]]].
  rewrite !FloatAxioms.eqb_spec, !FloatAxioms.leb_spec, FloatAxioms.div_spec, FloatAxioms.mul_spec, FloatAxioms.sqrt_spec.
  rewrite Prim2SF_zero, Prim2SF_below_one, Prim2SF_above_one, Hm.
  unfold SF64div, SF64mul, SF64sqrt. rewrite Hmul.
  split; [reflexivity|]. split; [reflexivity|]. split; [exact Hbelow|exact Habove].
Qed.

Local Open Scope nat_scope.

Lemma Binary64_mul_comm (x y : float) : PrimFloat.mul x y = PrimFloat.mul y x.
Proof.
  apply Prim2SF_inj. rewrite !FloatAxioms.mul_spec.
  destruct (Prim2SF x) as [sx|sx| |sx mx ex], (Prim2SF y) as [sy|sy| |sy my ey]; cbn;
    rewrite ?(xorb_comm sx sy), ?(Pos.mul_comm mx my), ?(Z.add_comm ex ey); reflexivity.
Qed.

(** From [1 - 2^-49] to [1 + 2^-49], the two ends included. *)
Definition near_one (x : float) : bool :=
  ((0x1.ffffffffffff0p-1 <=? x) && (x <=? 0x1.0000000000008p+0))%float.

(** C9, amended, on binary64 floats: the similarity is symmetric; it is
    0.0, without any division, when the squared magnitude of either
    vector is zero; for a vector [v] whose squared magnitude [m] is not
    zero it is the quotient of [m] by [sqrt m * sqrt m]; and when [m]
    is a normal number below [2^1020] (from [2^-1022] on), that quotient
    is a number from [1 - 2^-49] to [1 + 2^-49]. *)
Theorem cosine_similarity_properties (u v : list float) :
  cosine_similarity_optimized u v = cosine_similarity_optimized v u
  /\ (length u = length v ->
      f_eqb (sum_squares u) f_zero = true \/ f_eqb (sum_squares v) f_zero = true ->
      cosine_similarity_optimized u v = Normal f_zero)
  /\ (f_eqb (sum_squares v) f_zero = false ->
      cosine_similarity_optimized v v
      = py_div (sum_squares v) (f_mul (f_sqrt (sum_squares v)) (f_sqrt (sum_squares v))))
  /\ ((0x1p-1022 <=? sum_squares v)%float = true ->
      (sum_squares v <? 0x1p1020)%float = true ->
      exists r, cosine_similarity_optimized v v = Normal r /\ near_one r = true).
Proof.
  split; [|split; [|split]].
  - apply cosine_symmetric. exact Binary64_mul_comm.
  - apply cosine_zero_magnitude.
  - apply cosine_self_quotient.
  - intros Hlo Hhi.
    destruct (binary64_self_quotient (sum_squares v) Hlo Hhi) as [Hnz [Hnz' [Hbelow Habove]]].
    exists (sum_squares v / (sqrt (sum_squares v) * sqrt (sum_squares v)))%float. split.
    + rewrite (cosine_self_quotient (PF := Binary64) v Hnz). unfold py_div.
      cbn [f_eqb f_zero f_mul f_sqrt f_div Binary64]. rewrite Hnz'. reflexivity.
    + unfold near_one. rewrite Hbelow, Habove. reflexivity.
Qed.

Lemma cosine_similarity_properties_witness :
  cosine_similarity_optimized [3; 4]%float [0; 0]%float
  = cosine_similarity_optimized [0; 0]%float [3; 4]%float
  /\ cosine_similarity_optimized [3; 4]%float [0; 0]%float = Normal 0%float
  /\ cosine_similarity_optimized [3; 4]%float [3; 4]%float = py_div 25%float (5 * 5)%float
  /\ exists r, cosine_similarity_optimized [1; 1]%float [1; 1]%float = Normal r
               /\ near_one r = true.
Proof.
  pose proof (cosine_similarity_properties [3; 4]%float [0; 0]%float) as [Hsym [Hzero _]].
  pose proof (cosine_similarity_properties [3; 4]%float [3; 4]%float) as [_ [_ [Hself _]]].
  pose proof (cosine_similarity_properties [1; 1]%float [1; 1]%float) as [_ [_ [_ Hnear]]].
  split; [exact Hsym|split; [|split]].
  - apply Hzero; [reflexivity|right; reflexivity].
  - apply Hself. reflexivity.
  - apply Hnear; reflexivity.
Defined.

(** In the range of the amended claim the similarity of a vector with
    itself is near 1.0, not always 1.0: here it is 0.9999999999999998. *)
Lemma cosine_self_rounded :
  cosine_similarity_optimized [1; 1]%float [1; 1]%float = Normal 0x1.ffffffffffffep-1%float.
Proof. reflexivity. Qed.

(** C9, the claim as stated, on binary64 floats: the vector [2^-600] is
    not zero, yet its square underflows to 0.0, so its similarity with
    itself is 0.0; and the square of [2^600] overflows, so the similarity
    of that vector with itself is not a number. *)
Lemma cosine_self_not_one :
  f_eqb 0x1p-600%float f_zero = false
  /\ cosine_similarity_optimized [0x1p-600%float] [0x1p-600%float] = Normal 0%float
  /\ cosine_similarity_optimized [0x1p600%float] [0x1p600%float] = Normal nan.
Proof. repeat split; reflexivity. Qed.

(* ------------------------------------------------------------------ *)
(** ** Vectorizer *)

Section VectorizerProperties.
Context {F : Type} `{PF : PyFloat F} `{PL : PyLog F} `{HS : Hashing}.

(** The memo table of [tokenize] holds results of [tokenize] only. *)
Definition lru_ok (l : list (string * list string)) : Prop :=
  Forall (fun kv => snd kv = tokenize (fst kv)) l.

Lemma dict_get_string_in {V : Type} (d : dict string V) k v :
  dict_get String.eqb d k = Some v -> In (k, v) d.
Proof.
  induction d as [|[k' v'] d IH]; cbn [dict_get]; [discriminate|].
  destruct (String.eqb k k') eqn:E.
  - apply String.eqb_eq in E. subst k'. intros [= ->]. left. reflexivity.
  - intros Hd. right. apply IH. exact Hd.
Qed.

Lemma lru_remove_ok text l : lru_ok l -> lru_ok (lru_remove text l).
Proof.
  unfold lru_ok. induction 1 as [|[k v] l Hkv Hl IH]; cbn [lru_remove]; [constructor|].
  destruct (String.eqb text k); [exact Hl|constructor; assumption].
Qed.

Lemma firstn_Forall {A : Type} (P : A -> Prop) n : forall l,
  Forall P l -> Forall P (firstn n l).
Proof.
  induction n as [|n IH]; intros l Hl; [constructor|].
  destruct Hl as [|x l Hx Hl]; cbn [firstn]; constructor; [exact Hx|apply IH; exact Hl].
Qed.

Lemma skipn_Forall {A : Type} (P : A -> Prop) n : forall l,
  Forall P l -> Forall P (skipn n l).
Proof.
  induction n as [|n IH]; intros l Hl; [exact Hl|].
  destruct Hl as [|x l Hx Hl]; cbn [skipn]; [constructor|apply IH; exact Hl].
Qed.

(** A call of the memoized [tokenize] returns what [tokenize] returns
    and touches the memo table only. *)
Lemma tokenize_cached_spec text (w : World F) :
  lru_ok (tokenize_lru w) ->
  exists l, tokenize_cached text w = (tokenize text, with_tokenize_lru l w) /\ lru_ok l.
Proof.
  intros Hok. unfold tokenize_cached.
  destruct (dict_get String.eqb (tokenize_lru w) text) as [tokens|] eqn:E.
  - apply dict_get_string_in in E.
    pose proof (proj1 (Forall_forall _ _) Hok _ E) as Hv. cbn in Hv. subst tokens.
    eexists. split; [reflexivity|].
    constructor; [reflexivity|apply lru_remove_ok; exact Hok].
  - eexists. split; [reflexivity|].
    apply firstn_Forall. constructor; [reflexivity|exact Hok].
Qed.

Lemma with_tokenize_lru_twice l l' (w : World F) :
  with_tokenize_lru l (with_tokenize_lru l' w) = with_tokenize_lru l w.
Proof. reflexivity. Qed.

Lemma tokenize_all_spec documents : forall (w : World F),
  lru_ok (tokenize_lru w) ->
  exists l,
    tokenize_all documents w = (map tokenize documents, with_tokenize_lru l w) /\ lru_ok l.
Proof.
  induction documents as [|doc documents IH]; intros w Hok.
  - exists (tokenize_lru w). split; [destruct w; reflexivity|exact Hok].
  - cbn [tokenize_all map].
    destruct (tokenize_cached_spec doc w Hok) as [l1 [-> Hl1]].
    destruct (IH (with_tokenize_lru l1 w) Hl1) as [l2 [-> Hl2]].
    rewrite with_tokenize_lru_twice. exists l2. split; [reflexivity|exact Hl2].
Qed.

(** *** The two vector loops agree where [fit] does not raise *)

Lemma fit_loop_transform_loop vocab idf items : forall vector (r : list F),
  fit_vector_loop vocab idf items vector = Normal r ->
  transform_vector_loop vocab idf items vector = Normal r.
Proof.
  induction items as [|[token tf_score] items IH]; intros vector r;
    cbn [fit_vector_loop transform_vector_loop]; [trivial|].
  unfold dict_mem.
  destruct (dict_get String.eqb vocab token) as [i|]; [|apply IH].
  destruct (dict_get String.eqb idf token) as [x|]; [|discriminate].
  cbn [andb]. destruct (list_assign vector i (f_mul tf_score x)) as [vector'|e];
    cbn [bind]; [apply IH|discriminate].
Qed.

(** The vector [transform] computes for a text, its cache left aside. *)
Definition vector_of (vocab : dict string nat) (idf : dict string F) (text : string)
    : Res (list F) :=
  transform_vector_loop vocab idf (compute_tf (tokenize text)) (zeros (length vocab)).

Lemma vectors_loop_spec vocab idf texts : forall acc vectors,
  vectors_loop vocab idf (map tokenize texts) acc = (vectors, Normal tt) ->
  exists new,
    vectors = acc ++ new
    /\ Forall2 (fun text vector => vector_of vocab idf text = Normal vector) texts new.
Proof.
  induction texts as [|text texts IH]; intros acc vectors; cbn [map vectors_loop].
  - intros [= <-]. exists []. split; [symmetry; apply app_nil_r|constructor].
  - destruct (fit_vector_loop vocab idf (compute_tf (tokenize text)) (zeros (length vocab)))
      as [vector|e] eqn:E; [|discriminate].
    intros Hrest. destruct (IH _ _ Hrest) as [new [-> Hnew]].
    exists (vector :: new). split; [rewrite <- app_assoc; reflexivity|].
    constructor; [|exact Hnew]. apply fit_loop_transform_loop. exact E.
Qed.

(** The model file, when it carries the digest of [documents], was
    written by [fit] for these very documents: it holds them, and the
    vector of each under its vocabulary and idf table. *)
Definition fitted (f : ModelFile F) : Prop :=
  Forall2
    (fun text vector => vector_of (pk_vocabulary f) (pk_idf_values f) text = Normal vector)
    (pk_documents f) (pk_tf_idf_vectors f).

Definition model_file_ok (documents : list string) (w : World F) : Prop :=
  match tfidf_model_pkl w with
  | Some f => pk_docs_hash f = md5 (py_repr documents) -> pk_documents f = documents /\ fitted f
  | None => True
  end.

(** The model after a [fit] that returned. *)
Definition model_fits (documents : list string) (t : TFIDF F) : Prop :=
  tfidf_documents t = documents
  /\ Forall2
       (fun text vector => vector_of (vocabulary t) (idf_values t) text = Normal vector)
       documents (tf_idf_vectors t).

(** What [fit] leaves alone. *)
Definition fit_frame (w w' : World F) : Prop :=
  _vector_cache (tfidf w') = _vector_cache (tfidf w)
  /\ _tokenize_cache (tfidf w') = _tokenize_cache (tfidf w)
  /\ response_cache w' = response_cache w
  /\ similarity_cache w' = similarity_cache w
  /\ conn w' = conn w
  /\ documents w' = documents w
  /\ indexed w' = indexed w
  /\ doc_norms w' = doc_norms w
  /\ doc_norms_pkl w' = doc_norms_pkl w
  /\ docs_signature_txt w' = docs_signature_txt w.

Lemma fit_spec documents (w w' : World F) :
  lru_ok (tokenize_lru w) ->
  model_file_ok documents w ->
  fit documents w = (Normal tt, w') ->
  model_fits documents (tfidf w') /\ lru_ok (tokenize_lru w') /\ fit_frame w w'.
Proof.
  intros Hlru Hfile. unfold fit.
  destruct (match tfidf_model_pkl w with
            | Some f => if String.eqb (pk_docs_hash f) (md5 (py_repr documents))
                        then Some f else None
            | None => None
            end) as [f|] eqn:Ecache.
  - (* the model file is loaded *)
    intros [= <-].
    unfold model_file_ok in Hfile. destruct (tfidf_model_pkl w) as [f'|]; [|discriminate].
    destruct (String.eqb (pk_docs_hash f') (md5 (py_repr documents))) eqn:Eh; [|discriminate].
    injection Ecache as ->. apply String.eqb_eq in Eh. destruct (Hfile Eh) as [Hdocs Hfit].
    split; [|split].
    + split; [exact Hdocs|]. cbn. rewrite <- Hdocs. exact Hfit.
    + exact Hlru.
    + repeat split.
  - (* the model is computed *)
    destruct (tokenize_all_spec documents w Hlru) as [l [-> Hl]].
    destruct (idf_loop (length documents)
                (count_document_frequencies
                   (document_frequencies (tfidf (with_tokenize_lru l w)))
                   (map tokenize documents))
                (idf_values (tfidf (with_tokenize_lru l w)))) as [idf r_idf] eqn:Eidf.
    destruct r_idf as [[]|e]; [|intros [= ]].
    destruct (vectors_loop (build_vocabulary (map tokenize documents)) idf
                (map tokenize documents) []) as [vectors r] eqn:Evec.
    destruct r as [[]|e]; [|intros [= ]].
    intros [= <-].
    destruct (vectors_loop_spec _ _ _ _ _ Evec) as [new [-> Hnew]].
    split; [|split].
    + split; [reflexivity|exact Hnew].
    + exact Hl.
    + repeat split.
Qed.

Lemma Forall2_nth_error {A B : Type} (R : A -> B -> Prop) l l' :
  Forall2 R l l' ->
  forall i a, nth_error l i = Some a -> exists b, nth_error l' i = Some b /\ R a b.
Proof.
  induction 1 as [|a0 b0 l l' Hab Hl IH]; intros [|i] a; cbn [nth_error]; try discriminate.
  - intros [= <-]. exists b0. split; [reflexivity|exact Hab].
  - apply IH.
Qed.

Lemma Forall2_length_eq {A B : Type} (R : A -> B -> Prop) l l' :
  Forall2 R l l' -> length l = length l'.
Proof. induction 1; cbn; congruence. Qed.

(** [transform] on a text without an entry in the vector cache. *)
Lemma transform_miss text (w : World F) :
  lru_ok (tokenize_lru w) ->
  dict_get String.eqb (_vector_cache (tfidf w)) (md5 text) = None ->
  fst (transform text w)
  = vector_of (vocabulary (tfidf w)) (idf_values (tfidf w)) text.
Proof.
  intros Hlru Hmiss. unfold transform. rewrite Hmiss.
  destruct (tokenize_cached_spec text w Hlru) as [l [-> _]].
  unfold vector_of. cbn [tfidf with_tokenize_lru].
  destruct (transform_vector_loop (vocabulary (tfidf w)) (idf_values (tfidf w))
              (compute_tf (tokenize text)) (zeros (length (vocabulary (tfidf w)))));
    reflexivity.
Qed.

(** *** Invariants of the memo table and of the model file *)

(** The model file was written by [fit]. *)
Definition model_file_sound (w : World F) : Prop :=
  match tfidf_model_pkl w with
  | Some f => fitted f
  | None => True
  end.

(** No other corpus than the one in the model file has its digest. *)
Definition no_collision (documents : list string) (w : World F) : Prop :=
  match tfidf_model_pkl w with
  | Some f => pk_docs_hash f = md5 (py_repr documents) -> pk_documents f = documents
  | None => True
  end.

Lemma model_file_ok_intro documents (w : World F) :
  model_file_sound w -> no_collision documents w -> model_file_ok documents w.
Proof.
  unfold model_file_sound, no_collision, model_file_ok.
  destruct (tfidf_model_pkl w); [|trivial].
  intros Hs Hc Hh. split; [apply Hc; exact Hh|exact Hs].
Qed.

Lemma tokenize_all_world documents : forall (w : World F),
  exists all_tokens l, tokenize_all documents w = (all_tokens, with_tokenize_lru l w).
Proof.
  induction documents as [|doc documents IH]; intros w.
  - exists [], (tokenize_lru w). destruct w; reflexivity.
  - cbn [tokenize_all]. unfold tokenize_cached at 1.
    destruct (dict_get String.eqb (tokenize_lru w) doc) as [tokens|].
    + destruct (IH (with_tokenize_lru ((doc, tokens) :: lru_remove doc (tokenize_lru w)) w))
        as [all_tokens [l ->]].
      eexists; eexists; reflexivity.
    + destruct (IH (with_tokenize_lru
                      (firstn lru_maxsize ((doc, tokenize doc) :: tokenize_lru w)) w))
        as [all_tokens [l ->]].
      eexists; eexists; reflexivity.
Qed.

(** Whatever [fit] does, it leaves the rest of the engine alone. *)
Lemma fit_frame_any documents (w : World F) : fit_frame w (snd (fit documents w)).
Proof.
  unfold fit.
  destruct (match tfidf_model_pkl w with
            | Some f => if String.eqb (pk_docs_hash f) (md5 (py_repr documents))
                        then Some f else None
            | None => None
            end) as [f|]; [repeat split|].
  destruct (tokenize_all_world documents w) as [all_tokens [l ->]].
  destruct (idf_loop _ _ _) as [idf r_idf].
  destruct (match r_idf with
            | Normal _ => vectors_loop (build_vocabulary all_tokens) idf all_tokens []
            | Raise e => (tf_idf_vectors (tfidf (with_tokenize_lru l w)), Raise e)
            end) as [vectors r].
  destruct r; repeat split.
Qed.

Lemma fit_keeps_invariants documents (w : World F) :
  lru_ok (tokenize_lru w) -> model_file_sound w ->
  lru_ok (tokenize_lru (snd (fit documents w)))
  /\ model_file_sound (snd (fit documents w)).
Proof.
  intros Hlru Hsound. unfold fit.
  destruct (match tfidf_model_pkl w with
            | Some f => if String.eqb (pk_docs_hash f) (md5 (py_repr documents))
                        then Some f else None
            | None => None
            end) as [f|]; [split; assumption|].
  destruct (tokenize_all_spec documents w Hlru) as [l [-> Hl]].
  destruct (idf_loop _ _ _) as [idf r_idf].
  destruct r_idf as [[]|e]; [|split; assumption].
  destruct (vectors_loop (build_vocabulary (map tokenize documents)) idf
              (map tokenize documents) []) as [vectors r] eqn:Evec.
  destruct r as [[]|e]; [|split; assumption].
  split; [exact Hl|].
  destruct (vectors_loop_spec _ _ _ _ _ Evec) as [new [-> Hnew]]. exact Hnew.
Qed.

Lemma transform_keeps_invariants text (w : World F) :
  lru_ok (tokenize_lru w) -> model_file_sound w ->
  lru_ok (tokenize_lru (snd (transform text w)))
  /\ model_file_sound (snd (transform text w)).
Proof.
  intros Hlru Hsound. unfold transform.
  destruct (dict_get String.eqb (_vector_cache (tfidf w)) (md5 text)); [split; assumption|].
  destruct (tokenize_cached_spec text w Hlru) as [l [-> Hl]].
  match goal with
  | |- context [transform_vector_loop ?a ?b ?c ?d] =>
      destruct (transform_vector_loop a b c d)
  end; split; assumption.
Qed.

(** *** [fit] returns *)

Lemma dict_mem_set {V : Type} (d : dict string V) k v k' :
  dict_mem String.eqb d k' = true \/ k' = k ->
  dict_mem String.eqb (dict_set String.eqb d k v) k' = true.
Proof.
  unfold dict_mem. induction d as [|[k0 v0] d IH]; cbn [dict_set dict_get].
  - intros [Hm | ->]; [discriminate|]. rewrite String.eqb_refl. reflexivity.
  - intros Hk. destruct (String.eqb k k0) eqn:E.
    + apply String.eqb_eq in E. subst k0. cbn [dict_get].
      destruct (String.eqb k' k) eqn:E'; [reflexivity|].
      destruct Hk as [Hm | ->]; [exact Hm|]. rewrite String.eqb_refl in E'. discriminate.
    + cbn [dict_get]. destruct (String.eqb k' k0); [reflexivity|]. apply IH. exact Hk.
Qed.

Lemma mem_string_in x l : mem_string x l = true <-> In x l.
Proof.
  unfold mem_string. rewrite existsb_exists. split.
  - intros [y [Hy E]]. apply String.eqb_eq in E. subst y. exact Hy.
  - intros Hx. exists x. split; [exact Hx|apply String.eqb_refl].
Qed.

Lemma set_update_in tokens : forall s x,
  In x s \/ In x tokens -> In x (set_update s tokens).
Proof.
  unfold set_update.
  induction tokens as [|t tokens IH]; intros s x; cbn [fold_left].
  - intros [H|[]]. exact H.
  - intros H. apply IH. unfold set_add.
    destruct (mem_string t s) eqn:E.
    + destruct H as [H|[->|H]]; [left; exact H|left; apply mem_string_in; exact E|right; exact H].
    + destruct H as [H|[->|H]];
        [left; apply in_or_app; left; exact H
        |left; apply in_or_app; right; left; reflexivity
        |right; exact H].
Qed.

(** Every token of every document has a document frequency. *)
Lemma count_document_frequencies_has all_tokens : forall df token,
  dict_mem String.eqb df token = true
  \/ (exists tokens, In tokens all_tokens /\ In token tokens) ->
  dict_mem String.eqb (count_document_frequencies df all_tokens) token = true.
Proof.
  unfold count_document_frequencies.
  induction all_tokens as [|tokens all_tokens IH]; intros df token; cbn [fold_left].
  - intros [H|[tokens [[] _]]]. exact H.
  - intros H. apply IH.
    assert (G : forall l d,
               dict_mem String.eqb d token = true \/ In token l ->
               dict_mem String.eqb
                 (fold_left
                    (fun df token =>
                       dict_set String.eqb df token
                         (S (match dict_get String.eqb df token with
                             | Some n => n
                             | None => 0
                             end))) l d) token = true).
    { induction l as [|t l IHl]; intros d; cbn [fold_left].
      - intros [Hd|[]]. exact Hd.
      - intros Hd. apply IHl. destruct Hd as [Hd|[->|Hd]].
        + left. apply dict_mem_set. left. exact Hd.
        + left. apply dict_mem_set. right. reflexivity.
        + right. exact Hd. }
    destruct H as [H|[tokens' [[->|Hin] Htok]]].
    + left. apply G. left. exact H.
    + left. apply G. right. unfold set_of. apply set_update_in. right. exact Htok.
    + right. exists tokens'. split; assumption.
Qed.

(** With at least one document the idf loop does not raise, and gives
    an idf value to every token that has a document frequency. *)
Lemma idf_loop_returns num_documents items : forall (idf : dict string F),
  num_documents <> 0 ->
  exists idf',
    idf_loop num_documents items idf = (idf', Normal tt)
    /\ forall token,
         dict_mem String.eqb idf token = true \/ dict_mem String.eqb items token = true ->
         dict_mem String.eqb idf' token = true.
Proof.
  induction items as [|[t df] items IH]; intros idf Hn.
  - exists idf. split; [reflexivity|]. intros token [H|H]; [exact H|discriminate].
  - cbn [idf_loop]. unfold idf_of.
    assert (E : (num_documents =? 0) = false) by (apply Nat.eqb_neq; exact Hn).
    rewrite E.
    destruct (IH (dict_set String.eqb idf t
                    (if 0 <? df then f_log (f_truediv num_documents df) else f_zero)) Hn)
      as [idf' [Hloop Hhas]].
    exists idf'. split.
    + destruct (0 <? df); exact Hloop.
    + intros token H. apply Hhas.
      unfold dict_mem in H at 2. cbn [dict_get] in H.
      destruct (String.eqb token t) eqn:Et.
      * left. apply dict_mem_set. right. apply String.eqb_eq. exact Et.
      * destruct H as [H|H]; [left; apply dict_mem_set; left; exact H|right; exact H].
Qed.

Lemma counter_keys tokens token n :
  In (token, n) (counter tokens) -> In token tokens.
Proof.
  unfold counter.
  assert (G : forall l (c : dict string nat),
             In (token, n)
               (fold_left
                  (fun c token =>
                     dict_set String.eqb c token
                       (S (match dict_get String.eqb c token with
                           | Some n => n
                           | None => 0
                           end))) l c) ->
             In token (map fst c) \/ In token l).
  { induction l as [|t l IHl]; intros c; cbn [fold_left].
    - intros H. left. apply in_map_iff. exists (token, n). split; [reflexivity|exact H].
    - intros H. destruct (IHl _ H) as [Hc|Hl]; [|right; right; exact Hl].
      clear - Hc. revert Hc.
      generalize (S (match dict_get String.eqb c t with Some n => n | None => 0 end)).
      intros v. induction c as [|[k0 v0] c IHc]; cbn [dict_set map fst In].
      + intros [->|[]]. right. left. reflexivity.
      + destruct (String.eqb t k0); cbn [map fst In].
        * intros [->|H]; [left; left; reflexivity|left; right; exact H].
        * intros [->|H]; [left; left; reflexivity|].
          destruct (IHc H) as [H'|H']; [left; right; exact H'|right; exact H']. }
  intros H. destruct (G _ _ H) as [[]|Hl]. exact Hl.
Qed.

Lemma compute_tf_keys tokens token (x : F) :
  In (token, x) (compute_tf tokens) -> In token tokens.
Proof.
  unfold compute_tf. destruct (length tokens =? 0); [intros []|].
  intros H. apply in_map_iff in H as [[t c] [[= <- _] Hin]].
  exact (counter_keys _ _ _ Hin).
Qed.

Lemma list_assign_returns (vector : list F) : forall i x,
  i < length vector ->
  exists vector', list_assign vector i x = Normal vector' /\ length vector' = length vector.
Proof.
  induction vector as [|y vector IH]; intros i x Hi; [cbn in Hi; lia|].
  destruct i as [|i]; cbn [list_assign].
  - eexists. split; reflexivity.
  - destruct (IH i x) as [vector' [-> Hlen]]; [cbn in Hi; lia|].
    eexists. split; [reflexivity|]. cbn [length]. rewrite Hlen. reflexivity.
Qed.

Lemma vocabulary_bound words token : forall k i,
  dict_get String.eqb (combine words (seq k (length words))) token = Some i ->
  i < k + length words.
Proof.
  induction words as [|word words IH]; intros k i; cbn [length seq combine dict_get];
    [discriminate|].
  destruct (String.eqb token word).
  - intros [= <-]. lia.
  - intros H. apply IH in H. lia.
Qed.

Lemma fit_vector_loop_returns vocab (idf : dict string F) items : forall vector,
  (forall token x, In (token, x) items -> dict_mem String.eqb idf token = true) ->
  (forall token i, dict_get String.eqb vocab token = Some i -> i < length vector) ->
  exists r, fit_vector_loop vocab idf items vector = Normal r.
Proof.
  induction items as [|[token tf_score] items IH]; intros vector Hidf Hvocab;
    cbn [fit_vector_loop]; [eexists; reflexivity|].
  assert (Hrest : forall t x, In (t, x) items -> dict_mem String.eqb idf t = true).
  { intros t x Hin. apply (Hidf t x). right. exact Hin. }
  destruct (dict_get String.eqb vocab token) as [i|] eqn:Ev; [|apply IH; assumption].
  pose proof (Hidf token tf_score (or_introl eq_refl)) as Hm. unfold dict_mem in Hm.
  destruct (dict_get String.eqb idf token) as [idf_token|]; [|discriminate].
  destruct (list_assign_returns vector i (f_mul tf_score idf_token) (Hvocab _ _ Ev))
    as [vector' [-> Hlen]].
  cbn [bind]. apply IH; [exact Hrest|].
  intros t j Hj. rewrite Hlen. exact (Hvocab _ _ Hj).
Qed.

Lemma vectors_loop_returns vocab (idf : dict string F) all_tokens : forall vectors,
  (forall tokens token,
      In tokens all_tokens -> In token tokens -> dict_mem String.eqb idf token = true) ->
  (forall token i, dict_get String.eqb vocab token = Some i -> i < length vocab) ->
  exists vectors', vectors_loop vocab idf all_tokens vectors = (vectors', Normal tt).
Proof.
  induction all_tokens as [|tokens all_tokens IH]; intros vectors Hidf Hvocab;
    cbn [vectors_loop]; [eexists; reflexivity|].
  destruct (fit_vector_loop_returns vocab idf (compute_tf tokens) (zeros (length vocab)))
    as [vector ->].
  - intros token x Hin. apply (Hidf tokens token); [left; reflexivity|].
    exact (compute_tf_keys _ _ _ Hin).
  - intros token i Hi. unfold zeros. rewrite repeat_length. exact (Hvocab _ _ Hi).
  - apply IH; [|exact Hvocab].
    intros tokens' token Hin Htok. apply (Hidf tokens' token); [right; exact Hin|exact Htok].
Qed.

(** On a corpus of at least one text [fit] returns. *)
Lemma fit_returns documents (w : World F) :
  documents <> [] -> fst (fit documents w) = Normal tt.
Proof.
  intros Hne. unfold fit.
  destruct (match tfidf_model_pkl w with
            | Some f => if String.eqb (pk_docs_hash f) (md5 (py_repr documents))
                        then Some f else None
            | None => None
            end) as [f|]; [reflexivity|].
  destruct (tokenize_all documents w) as [all_tokens w1].
  destruct (idf_loop_returns (length documents)
              (count_document_frequencies (document_frequencies (tfidf w1)) all_tokens)
              (idf_values (tfidf w1))) as [idf [-> Hidf]].
  { destruct documents; [contradiction|discriminate]. }
  destruct (vectors_loop_returns (build_vocabulary all_tokens) idf all_tokens [])
    as [vectors ->]; [| |reflexivity].
  - intros tokens token Hin Htok. apply Hidf. right.
    apply count_document_frequencies_has. right. exists tokens. split; assumption.
  - intros token i Hi. unfold build_vocabulary in *.
    rewrite length_combine, length_seq, Nat.min_id.
    exact (vocabulary_bound _ _ 0 _ Hi).
Qed.

(** C8, amended: after [fit(corpus)] has returned, [transform] of a text
    of the corpus for which the vector cache holds no entry returns the
    very vector [fit] stored for it.  (The memo table of [tokenize] holds
    its results, and the model file, if it names this corpus, is the one
    [fit] wrote for it.) *)
Theorem fit_transform_stored_vector corpus (w w1 : World F) i text :
  lru_ok (tokenize_lru w) ->
  model_file_ok corpus w ->
  fit corpus w = (Normal tt, w1) ->
  nth_error corpus i = Some text ->
  dict_get String.eqb (_vector_cache (tfidf w1)) (md5 text) = None ->
  exists vector,
    nth_error (tf_idf_vectors (tfidf w1)) i = Some vector
    /\ fst (transform text w1) = Normal vector.
Proof.
  intros Hlru Hfile Hfit Hi Hmiss.
  destruct (fit_spec corpus w w1 Hlru Hfile Hfit) as [[_ Hvec] [Hlru1 _]].
  destruct (Forall2_nth_error _ _ _ Hvec i text Hi) as [vector [Hv Hof]].
  exists vector. split; [exact Hv|].
  rewrite (transform_miss text w1 Hlru1 Hmiss). exact Hof.
Qed.
End VectorizerProperties.

(* ------------------------------------------------------------------ *)
(** ** Index construction *)

Section IndexProperties.
Context {F : Type} `{PF : PyFloat F} `{PL : PyLog F} `{HS : Hashing}.

(** The chunks of all documents, in order: the texts handed to [fit]. *)
Definition chunk_texts (documents : list Document) : list string :=
  flat_map (fun doc => chunk_default (doc_content doc)) documents.

Definition acc_db (acc : Db * list string * list Chunk * nat) : Db := fst (fst (fst acc)).
Definition acc_texts (acc : Db * list string * list Chunk * nat) : list string :=
  snd (fst (fst acc)).
Definition acc_docs (acc : Db * list string * list Chunk * nat) : list Chunk :=
  snd (fst acc).

Lemma index_chunks_spec doc chunks : forall i acc,
  acc_texts (index_chunks doc chunks i acc) = acc_texts acc ++ chunks
  /\ map content (acc_docs (index_chunks doc chunks i acc))
     = map content (acc_docs acc) ++ chunks
  /\ map content (table (acc_db (index_chunks doc chunks i acc)))
     = map content (table (acc_db acc)) ++ chunks
  /\ committed (acc_db (index_chunks doc chunks i acc)) = committed (acc_db acc).
Proof.
  induction chunks as [|chunk chunks IH]; intros i [[[db texts] docs] doc_id].
  - cbn. rewrite !app_nil_r. repeat split.
  - cbn [index_chunks].
    destruct (IH (S i)
                (db_insert db doc chunk i, texts ++ [chunk],
                 docs ++ [{| id := doc_id; file_name := doc_file_name doc;
                             file_path := doc_file_path doc; title := doc_title doc;
                             content := chunk; content_type := doc_content_type doc;
                             chunk_index := i |}],
                 S doc_id)) as [H1 [H2 [H3 H4]]].
    rewrite H1, H2, H3, H4. cbn. rewrite !map_app, <- !app_assoc. repeat split.
Qed.

Lemma index_all_spec documents : forall acc,
  acc_texts (index_all documents acc) = acc_texts acc ++ chunk_texts documents
  /\ map content (acc_docs (index_all documents acc))
     = map content (acc_docs acc) ++ chunk_texts documents
  /\ map content (table (acc_db (index_all documents acc)))
     = map content (table (acc_db acc)) ++ chunk_texts documents
  /\ committed (acc_db (index_all documents acc)) = committed (acc_db acc).
Proof.
  unfold index_all.
  induction documents as [|doc documents IH]; intros acc.
  - cbn. rewrite !app_nil_r. repeat split.
  - cbn [fold_left chunk_texts flat_map].
    destruct (IH (index_chunks doc (chunk_default (doc_content doc)) 0 acc))
      as [H1 [H2 [H3 H4]]].
    destruct (index_chunks_spec doc (chunk_default (doc_content doc)) 0 acc)
      as [G1 [G2 [G3 G4]]].
    rewrite H1, H2, H3, H4, G1, G2, G3, G4. rewrite <- !app_assoc. repeat split.
Qed.

Lemma map_eq_nil_inv {A B : Type} (f : A -> B) l : map f l = [] -> l = [].
Proof. destruct l; [reflexivity|discriminate]. Qed.

(** C3, amended: when no chunk results from the documents,
    [index_documents] returns False after it has deleted every row of
    the table, committed the deletion and emptied the in-memory list of
    chunks; the fitted model, the norms, the caches and the [indexed]
    flag are as they were. *)
Theorem index_without_chunks documents (w : World F) :
  chunk_texts documents = [] ->
  exists db,
    index_documents documents w = (false, with_documents [] (with_conn db w))
    /\ table db = [] /\ committed db = [].
Proof.
  intros Hnone. unfold index_documents. cbn [_check_documents_cached].
  destruct (index_all_spec documents (db_delete_all (conn w), [], [], 0))
    as [H1 [H2 [H3 _]]].
  destruct (index_all documents (db_delete_all (conn w), [], [], 0))
    as [[[db texts] docs] doc_id].
  cbn in H1, H2, H3. rewrite Hnone in H1, H2, H3. subst texts.
  apply map_eq_nil_inv in H2, H3. subst docs.
  exists (db_commit db). split; [reflexivity|]. cbn. split; exact H3.
Qed.

(** [index_documents] returns True exactly when some chunk results
    from the documents. *)
Theorem index_documents_succeeds_iff input (w : World F) :
  fst (index_documents input w)
  = match chunk_texts input with [] => false | _ :: _ => true end.
Proof.
  unfold index_documents. cbn [_check_documents_cached].
  destruct (index_all_spec input (db_delete_all (conn w), [], [], 0)) as [H1 _].
  destruct (index_all input (db_delete_all (conn w), [], [], 0))
    as [[[db texts] docs] doc_id].
  cbn in H1. subst texts.
  destruct (chunk_texts input) as [|text texts]; [reflexivity|].
  pose proof (fit_returns (text :: texts)
                (with_documents docs (with_conn (db_commit db) w))) as Hfit.
  destruct (fit (text :: texts) (with_documents docs (with_conn (db_commit db) w)))
    as [r w2].
  cbn [fst] in Hfit. rewrite Hfit; [reflexivity|discriminate].
Qed.

(** The three lists of the index have one length. *)
Definition index_aligned (w : World F) : Prop :=
  length (documents w) = length (tf_idf_vectors (tfidf w))
  /\ length (doc_norms w) = length (tf_idf_vectors (tfidf w)).

Lemma index_documents_aligned input (w w' : World F) :
  lru_ok (tokenize_lru w) ->
  model_file_ok (chunk_texts input) w ->
  index_documents input w = (true, w') ->
  index_aligned w' /\ indexed w' = true
  /\ map content (documents w') = chunk_texts input
  /\ model_fits (chunk_texts input) (tfidf w').
Proof.
  intros Hlru Hfile. unfold index_documents. cbn [_check_documents_cached].
  destruct (index_all_spec input (db_delete_all (conn w), [], [], 0))
    as [H1 [H2 _]].
  destruct (index_all input (db_delete_all (conn w), [], [], 0))
    as [[[db texts] docs] doc_id].
  cbn in H1, H2. subst texts.
  destruct (chunk_texts input) as [|text texts] eqn:Etexts; [discriminate|].
  rewrite <- Etexts in *.
  destruct (fit (chunk_texts input) (with_documents docs (with_conn (db_commit db) w)))
    as [[[]|e] w2] eqn:Efit; [|discriminate].
  intros [= <-].
  destruct (fit_spec (chunk_texts input)
              (with_documents docs (with_conn (db_commit db) w)) w2 Hlru Hfile Efit)
    as [Hfits [_ [_ [_ [_ [_ [_ [Hdocs _]]]]]]]].
  cbn in Hdocs.
  split; [|repeat split].
  - unfold index_aligned. cbn. rewrite Hdocs. unfold compute_norms. rewrite length_map.
    split; [|reflexivity].
    destruct Hfits as [_ Hvec]. rewrite <- (Forall2_length_eq _ _ _ Hvec).
    rewrite <- H2. symmetry. apply length_map.
  - cbn. rewrite Hdocs. exact H2.
  - apply Hfits.
  - apply Hfits.
Qed.
End IndexProperties.

(* ------------------------------------------------------------------ *)
(** ** Sorting the candidates *)

Section SortProperties.
Context {F : Type} `{PF : PyFloat F}.

Lemma insert_asc_perm x l : Permutation (insert_asc x l) (x :: l).
Proof.
  induction l as [|y l IH]; cbn [insert_asc]; [apply Permutation_refl|].
  destruct (tuple_ltb x y); [apply Permutation_refl|].
  apply perm_trans with (y :: x :: l); [apply perm_skip; exact IH|apply perm_swap].
Qed.

Lemma sort_ascending_perm l : Permutation (sort_ascending l) l.
Proof.
  unfold sort_ascending.
  assert (G : forall acc, Permutation (fold_left (fun acc x => insert_asc x acc) l acc)
                            (acc ++ l)).
  { induction l as [|x l IH]; intros acc; cbn [fold_left].
    - rewrite app_nil_r. apply Permutation_refl.
    - apply perm_trans with (insert_asc x acc ++ l); [apply IH|].
      apply perm_trans with ((x :: acc) ++ l).
      + apply Permutation_app_tail. apply insert_asc_perm.
      + apply Permutation_middle. }
  apply (G []).
Qed.

Lemma sort_reverse_perm l : Permutation (sort_reverse l) l.
Proof.
  unfold sort_reverse.
  apply perm_trans with (sort_ascending (rev l)); [apply Permutation_sym, Permutation_rev|].
  apply perm_trans with (rev l); [apply sort_ascending_perm|].
  apply Permutation_sym, Permutation_rev.
Qed.

Lemma StronglySorted_snoc {A : Type} (R : A -> A -> Prop) l x :
  StronglySorted R l -> Forall (fun y => R y x) l -> StronglySorted R (l ++ [x]).
Proof.
  induction 1 as [|y l Hl IH Hy]; intros Hx; cbn [app].
  - constructor; constructor.
  - inversion Hx as [|? ? Hyx Hlx]; subst. constructor; [apply IH; exact Hlx|].
    apply Forall_app. split; [exact Hy|constructor; [exact Hyx|constructor]].
Qed.

Lemma StronglySorted_rev {A : Type} (R : A -> A -> Prop) l :
  StronglySorted R l -> StronglySorted (fun a b => R b a) (rev l).
Proof.
  induction 1 as [|y l Hl IH Hy]; cbn [rev]; [constructor|].
  apply StronglySorted_snoc; [exact IH|].
  apply Forall_rev. exact Hy.
Qed.

Lemma StronglySorted_firstn {A : Type} (R : A -> A -> Prop) n : forall l,
  StronglySorted R l -> StronglySorted R (firstn n l).
Proof.
  induction n as [|n IH]; intros l Hl; [constructor|].
  destruct Hl as [|x l Hl Hx]; cbn [firstn]; constructor;
    [apply IH; exact Hl|apply firstn_Forall; exact Hx].
Qed.

Lemma StronglySorted_weaken {A : Type} (R R' : A -> A -> Prop) (P : A -> Prop) l :
  (forall a b, P a -> P b -> R a b -> R' a b) ->
  Forall P l -> StronglySorted R l -> StronglySorted R' l.
Proof.
  intros HR HP. induction 1 as [|x l Hl IH Hx]; [constructor|].
  inversion HP as [|? ? HPx HPl]; subst.
  constructor; [apply IH; exact HPl|].
  apply Forall_forall. intros y Hy.
  apply HR; [exact HPx|exact (proj1 (Forall_forall _ _) HPl _ Hy)|].
  exact (proj1 (Forall_forall _ _) Hx _ Hy).
Qed.

Lemma slice_to_firstn {A : Type} (l : list A) n : exists k, slice_to l n = firstn k l.
Proof. unfold slice_to. destruct (n <? 0)%Z; eexists; reflexivity. Qed.

Lemma slice_to_length {A : Type} (l : list A) n :
  (0 <= n)%Z -> (Z.of_nat (length (slice_to l n)) <= n)%Z.
Proof.
  intros Hn. unfold slice_to. destruct (n <? 0)%Z eqn:E; [apply Z.ltb_lt in E; lia|].
  rewrite length_firstn. lia.
Qed.

Context `{PO : !PyFloatOrder F}.

Lemma tuple_ltb_asym a b : tuple_ltb a b = true -> tuple_ltb b a = false.
Proof.
  unfold tuple_ltb. rewrite (f_eqb_sym (fst b) (fst a)).
  destruct (f_eqb (fst a) (fst b)).
  - intros Hlt. apply Nat.ltb_lt in Hlt. apply Nat.ltb_ge. lia.
  - apply f_ltb_asym.
Qed.

Lemma f_ltb_of_not x y :
  is_number x = true -> is_number y = true ->
  f_eqb x y = false -> f_ltb y x = false -> f_ltb x y = true.
Proof.
  intros Hx Hy Hne Hyx. destruct (f_ltb x y) eqn:Hxy; [reflexivity|].
  rewrite (f_ltb_total x y Hx Hy Hxy Hyx) in Hne. discriminate.
Qed.

(** A candidate whose score is a number. *)
Definition scored (p : F * nat) : Prop := is_number (fst p) = true.

(** [<=] on tuples is transitive. *)
Lemma tuple_le_trans x y z :
  scored x -> scored y -> scored z ->
  tuple_ltb y x = false -> tuple_ltb z y = false -> tuple_ltb z x = false.
Proof.
  unfold tuple_ltb, scored. intros Nx Ny Nz Hyx Hzy.
  destruct (f_eqb (fst y) (fst x)) eqn:Eyx; destruct (f_eqb (fst z) (fst y)) eqn:Ezy.
  - rewrite (f_eqb_trans _ _ _ Ezy Eyx).
    apply Nat.ltb_ge in Hyx, Hzy. apply Nat.ltb_ge. lia.
  - (* y == x, y < z *)
    assert (Hlt : f_ltb (fst y) (fst z) = true).
    { apply f_ltb_of_not; try assumption. rewrite f_eqb_sym. exact Ezy. }
    rewrite (f_ltb_eqb_l _ _ (fst z) Eyx) in Hlt.
    rewrite (f_eqb_sym (fst z) (fst x)), (f_ltb_eqb _ _ Hlt).
    apply f_ltb_asym. exact Hlt.
  - (* x < y, z == y *)
    assert (Hlt : f_ltb (fst x) (fst y) = true).
    { apply f_ltb_of_not; try assumption. rewrite f_eqb_sym. exact Eyx. }
    rewrite <- (f_ltb_eqb_r _ _ (fst x) Ezy) in Hlt.
    rewrite (f_eqb_sym (fst z) (fst x)), (f_ltb_eqb _ _ Hlt).
    apply f_ltb_asym. exact Hlt.
  - assert (H1 : f_ltb (fst x) (fst y) = true).
    { apply f_ltb_of_not; try assumption. rewrite f_eqb_sym. exact Eyx. }
    assert (H2 : f_ltb (fst y) (fst z) = true).
    { apply f_ltb_of_not; try assumption. rewrite f_eqb_sym. exact Ezy. }
    pose proof (f_ltb_trans _ _ _ H1 H2) as Hlt.
    rewrite (f_eqb_sym (fst z) (fst x)), (f_ltb_eqb _ _ Hlt).
    apply f_ltb_asym. exact Hlt.
Qed.

Lemma tuple_ltb_total a b :
  scored a -> scored b ->
  snd a <> snd b -> tuple_ltb a b = false -> tuple_ltb b a = true.
Proof.
  unfold tuple_ltb, scored. rewrite (f_eqb_sym (fst b) (fst a)). intros Na Nb Hne.
  destruct (f_eqb (fst a) (fst b)) eqn:E.
  - intros Hlt. apply Nat.ltb_ge in Hlt. apply Nat.ltb_lt. lia.
  - intros Hlt. apply f_ltb_of_not; try assumption. rewrite f_eqb_sym. exact E.
Qed.

Lemma insert_asc_Forall (P : F * nat -> Prop) x l :
  P x -> Forall P l -> Forall P (insert_asc x l).
Proof.
  intros Hx Hl.
  apply (Permutation_Forall (Permutation_sym (insert_asc_perm x l))).
  constructor; assumption.
Qed.

Lemma insert_asc_sorted x l :
  scored x -> Forall scored l ->
  StronglySorted (fun a b => tuple_ltb b a = false) l ->
  StronglySorted (fun a b => tuple_ltb b a = false) (insert_asc x l).
Proof.
  intros Nx Nl. induction 1 as [|y l Hl IH Hy]; cbn [insert_asc].
  - constructor; constructor.
  - inversion Nl as [|? ? Ny Nl']; subst.
    destruct (tuple_ltb x y) eqn:E.
    + constructor; [constructor; assumption|].
      pose proof (tuple_ltb_asym _ _ E) as Hyx.
      constructor; [exact Hyx|].
      apply Forall_forall. intros z Hz.
      apply (tuple_le_trans x y z Nx Ny (proj1 (Forall_forall _ _) Nl' _ Hz) Hyx).
      exact (proj1 (Forall_forall _ _) Hy _ Hz).
    + constructor; [exact (IH Nl')|]. apply insert_asc_Forall; assumption.
Qed.

Lemma sort_ascending_sorted l :
  Forall scored l ->
  StronglySorted (fun a b => tuple_ltb b a = false) (sort_ascending l)
  /\ Forall scored (sort_ascending l).
Proof.
  unfold sort_ascending.
  assert (G : forall acc,
             Forall scored l -> Forall scored acc ->
             StronglySorted (fun a b => tuple_ltb b a = false) acc ->
             StronglySorted (fun a b => tuple_ltb b a = false)
               (fold_left (fun acc x => insert_asc x acc) l acc)
             /\ Forall scored (fold_left (fun acc x => insert_asc x acc) l acc)).
  { induction l as [|x l IH]; intros acc Nl Nacc Hacc; cbn [fold_left];
      [split; assumption|].
    inversion Nl as [|? ? Nx Nl']; subst.
    apply IH; [exact Nl'|apply insert_asc_Forall; assumption|].
    apply insert_asc_sorted; assumption. }
  intros Nl. apply G; [exact Nl|constructor|constructor].
Qed.

(** Who is ranked before whom: the greater score, or with equal scores
    the greater index. *)
Definition ranks_before (a b : F * nat) : Prop :=
  f_ltb (fst b) (fst a) = true \/ (f_eqb (fst a) (fst b) = true /\ snd b < snd a).

Lemma tuple_ltb_ranks a b : tuple_ltb b a = true -> ranks_before a b.
Proof.
  unfold tuple_ltb, ranks_before. rewrite (f_eqb_sym (fst b) (fst a)).
  destruct (f_eqb (fst a) (fst b)).
  - intros Hlt. apply Nat.ltb_lt in Hlt. right. split; [reflexivity|exact Hlt].
  - intros Hlt. left. exact Hlt.
Qed.

Lemma ranks_before_score a b : ranks_before a b -> f_ltb (fst a) (fst b) = false.
Proof.
  intros [Hlt | [Heq _]].
  - apply f_ltb_asym. exact Hlt.
  - destruct (f_ltb (fst a) (fst b)) eqn:E; [|reflexivity].
    rewrite (f_ltb_eqb _ _ E) in Heq. discriminate.
Qed.

Lemma NoDup_map_snd_neq (l : list (F * nat)) :
  NoDup (map snd l) ->
  StronglySorted (fun a b => snd a <> snd b) l.
Proof.
  induction l as [|a l IH]; cbn [map]; intros Hnd; [constructor|].
  inversion Hnd as [|? ? Hni Hnd']; subst. constructor; [apply IH; exact Hnd'|].
  apply Forall_forall. intros b Hb Heq. apply Hni. rewrite Heq. apply in_map. exact Hb.
Qed.

Lemma StronglySorted_and {A : Type} (R R' : A -> A -> Prop) l :
  StronglySorted R l -> StronglySorted R' l ->
  StronglySorted (fun a b => R a b /\ R' a b) l.
Proof.
  induction 1 as [|x l Hl IH Hx]; intros H'; [constructor|].
  inversion H' as [|? ? Hl' Hx']; subst. constructor; [apply IH; exact Hl'|].
  apply Forall_forall. intros y Hy. split.
  - exact (proj1 (Forall_forall _ _) Hx _ Hy).
  - exact (proj1 (Forall_forall _ _) Hx' _ Hy).
Qed.

(** Candidates with distinct indices, whose scores are numbers, come
    out of the sort in strictly descending order of (score, index). *)
Lemma sort_reverse_ranked l :
  Forall scored l ->
  NoDup (map snd l) -> StronglySorted ranks_before (sort_reverse l).
Proof.
  intros Nl Hnd. unfold sort_reverse.
  apply (StronglySorted_rev (fun a b => ranks_before b a)).
  assert (Hnd' : NoDup (map snd (sort_ascending (rev l)))).
  { apply (Permutation_NoDup (l := map snd l)); [|exact Hnd].
    apply Permutation_map. apply Permutation_sym.
    apply perm_trans with (rev l); [apply sort_ascending_perm|].
    apply Permutation_sym, Permutation_rev. }
  destruct (sort_ascending_sorted (rev l) (Forall_rev Nl)) as [Hsorted Nsorted].
  pose proof (StronglySorted_and _ _ _ Hsorted (NoDup_map_snd_neq _ Hnd')) as Hs.
  revert Hs. apply (StronglySorted_weaken _ _ scored); [|exact Nsorted].
  intros a b Na Nb [Hle Hne]. apply tuple_ltb_ranks. apply tuple_ltb_total; try assumption.
  intros Heq. apply Hne. symmetry. exact Heq.
Qed.
End SortProperties.

(* ------------------------------------------------------------------ *)
(** ** Similarity search *)

Section SearchProperties.
Context {F : Type} `{PF : PyFloat F} `{PL : PyLog F} `{HS : Hashing}.

(** What a query leaves alone: the index and everything persisted. *)
Definition same_index (w w' : World F) : Prop :=
  vocabulary (tfidf w') = vocabulary (tfidf w)
  /\ idf_values (tfidf w') = idf_values (tfidf w)
  /\ document_frequencies (tfidf w') = document_frequencies (tfidf w)
  /\ tfidf_documents (tfidf w') = tfidf_documents (tfidf w)
  /\ tf_idf_vectors (tfidf w') = tf_idf_vectors (tfidf w)
  /\ documents w' = documents w
  /\ doc_norms w' = doc_norms w
  /\ indexed w' = indexed w
  /\ conn w' = conn w
  /\ tfidf_model_pkl w' = tfidf_model_pkl w
  /\ doc_norms_pkl w' = doc_norms_pkl w
  /\ docs_signature_txt w' = docs_signature_txt w.

Lemma same_index_refl w : same_index w w.
Proof. repeat split. Qed.

Lemma same_index_trans w1 w2 w3 : same_index w1 w2 -> same_index w2 w3 -> same_index w1 w3.
Proof.
  unfold same_index. intros H1 H2.
  decompose [and] H1. decompose [and] H2. repeat split; congruence.
Qed.

Lemma same_index_lru l (w : World F) : same_index w (with_tokenize_lru l w).
Proof. unfold same_index. repeat (split; [reflexivity|]). reflexivity. Qed.

Lemma same_index_vector_cache c (w : World F) : same_index w (with_vector_cache c w).
Proof. unfold same_index. repeat (split; [reflexivity|]). reflexivity. Qed.

Lemma tokenize_cached_world text (w : World F) :
  exists tokens l, tokenize_cached text w = (tokens, with_tokenize_lru l w).
Proof.
  unfold tokenize_cached.
  destruct (dict_get String.eqb (tokenize_lru w) text); eexists; eexists; reflexivity.
Qed.

Lemma transform_frame text (w : World F) :
  same_index w (snd (transform text w))
  /\ similarity_cache (snd (transform text w)) = similarity_cache w
  /\ response_cache (snd (transform text w)) = response_cache w.
Proof.
  unfold transform.
  destruct (dict_get String.eqb (_vector_cache (tfidf w)) (md5 text));
    [split; [apply same_index_refl|split; reflexivity]|].
  destruct (tokenize_cached_world text w) as [tokens [l ->]].
  match goal with
  | |- context [transform_vector_loop ?a ?b ?c ?d] =>
      destruct (transform_vector_loop a b c d)
  end; cbn [snd].
  - split; [|split; reflexivity].
    apply (same_index_trans _ _ _ (same_index_lru l w)).
    apply same_index_vector_cache.
  - split; [apply same_index_lru|split; reflexivity].
Qed.

(** The scoring loop appends candidates above the threshold, with
    increasing indices from [i] on. *)
Lemma similarities_loop_spec query_vector query_norm rows : forall i acc similarities,
  similarities_loop query_vector query_norm rows i acc = Normal similarities ->
  exists new,
    similarities = acc ++ new
    /\ Forall (fun p => f_ltb f_threshold (fst p) = true
                        /\ i <= snd p < i + length rows) new
    /\ NoDup (map snd new).
Proof.
  induction rows as [|[doc_vector doc_norm] rows IH]; intros i acc similarities;
    cbn [similarities_loop].
  - intros [= <-]. exists []. rewrite app_nil_r. repeat constructor.
  - destruct (if f_eqb doc_norm f_zero then Normal f_zero
              else py_div (dot query_vector doc_vector) (f_mul query_norm doc_norm))
      as [similarity|e]; cbn [bind]; [|discriminate].
    intros Hrest. destruct (IH _ _ _ Hrest) as [new [-> [Hnew Hnd]]].
    assert (Hshift : Forall (fun p => f_ltb f_threshold (fst p) = true
                                      /\ i <= snd p < i + length ((doc_vector, doc_norm) :: rows))
                       new).
    { revert Hnew. apply Forall_impl. cbn [length]. intros p [Hp Hi]. split; [exact Hp|lia]. }
    destruct (f_ltb f_threshold similarity) eqn:Hs.
    + exists ((similarity, i) :: new). rewrite <- app_assoc. split; [reflexivity|].
      split.
      * constructor; [|exact Hshift]. cbn [fst snd length]. split; [exact Hs|lia].
      * cbn [map snd]. constructor; [|exact Hnd].
        intros Hin. apply in_map_iff in Hin as [p [Hp Hin]].
        pose proof (proj1 (Forall_forall _ _) Hnew _ Hin) as [_ Hb]. lia.
    + exists new. split; [reflexivity|]. split; assumption.
Qed.

Lemma rank_spec query_vector (w : World F) similarities :
  rank query_vector w = Normal similarities ->
  Forall (fun p => f_ltb f_threshold (fst p) = true
                   /\ snd p < length (tf_idf_vectors (tfidf w))
                   /\ snd p < length (doc_norms w)) similarities
  /\ NoDup (map snd similarities)
  /\ exists candidates,
       similarities = sort_reverse candidates /\ NoDup (map snd candidates).
Proof.
  unfold rank.
  destruct (similarities_loop query_vector (norm query_vector)
              (combine (tf_idf_vectors (tfidf w)) (doc_norms w)) 0 [])
    as [candidates|e] eqn:E; cbn [bind]; [|discriminate].
  intros [= <-].
  destruct (similarities_loop_spec _ _ _ _ _ _ E) as [new [-> [Hnew Hnd]]].
  cbn [app] in *.
  split; [|split].
  - apply (Permutation_Forall (Permutation_sym (sort_reverse_perm new))).
    revert Hnew. apply Forall_impl. intros p [Hp Hi].
    rewrite length_combine in Hi. split; [exact Hp|lia].
  - apply (Permutation_NoDup (l := map snd new)); [|exact Hnd].
    apply Permutation_map, Permutation_sym, sort_reverse_perm.
  - exists new. split; [reflexivity|exact Hnd].
Qed.

(** A result entry is made of the chunk at the candidate's index and of
    the candidate's score. *)
Definition result_of (docs : list Chunk) (p : F * nat) (r : SearchResult F) : Prop :=
  exists d, nth_error docs (snd p) = Some d /\ r = make_result d (fst p).

Lemma build_results_spec docs top : forall results,
  build_results docs top = Normal results -> Forall2 (result_of docs) top results.
Proof.
  induction top as [|[similarity idx] top IH]; intros results; cbn [build_results].
  - intros [= <-]. constructor.
  - destruct (nth_error docs idx) as [d|] eqn:Ed; [|discriminate].
    destruct (build_results docs top) as [rest|e]; cbn [bind]; [|discriminate].
    intros [= <-]. constructor; [|apply IH; reflexivity].
    exists d. split; [exact Ed|reflexivity].
Qed.

Lemma build_results_in_bounds docs top :
  Forall (fun p : F * nat => snd p < length docs) top ->
  raised (build_results docs top) = false.
Proof.
  induction 1 as [|[similarity idx] top Hidx Htop IH]; cbn [build_results]; [reflexivity|].
  cbn [snd] in Hidx. destruct (nth_error docs idx) as [d|] eqn:Ed.
  - destruct (build_results docs top); [reflexivity|discriminate].
  - apply nth_error_None in Ed. lia.
Qed.

Lemma result_scores docs top results :
  Forall2 (result_of docs) top results -> map similarity_score results = map fst top.
Proof.
  induction 1 as [|p r top results [d [_ ->]] _ IH]; [reflexivity|].
  cbn [map]. rewrite IH. reflexivity.
Qed.

(** The entries of the similarity cache. *)
Definition sim_cache := dict (string * Z) (list (SearchResult F)).

Definition evict_similarity (cache : sim_cache) : sim_cache :=
  if 500 <? length cache then dict_drop_oldest 100 cache else cache.

(** The four ways out of [search_similar_documents]. *)
Inductive search_outcome (query : string) (n_results : Z) (w : World F)
    : list (SearchResult F) -> World F -> Prop :=
| NotIndexed :
    indexed w = false ->
    search_outcome query n_results w [] w
| CacheHit results :
    indexed w = true ->
    dict_get cache_key_eqb (similarity_cache w) (md5 query, n_results) = Some results ->
    search_outcome query n_results w results w
| NothingFound r w1 :
    indexed w = true ->
    dict_get cache_key_eqb (similarity_cache w) (md5 query, n_results) = None ->
    transform query w = (r, w1) ->
    (forall query_vector,
        r = Normal query_vector ->
        f_eqb (norm query_vector) f_zero = false ->
        raised (similarities <- rank query_vector w1 ;;
                build_results (documents w1) (slice_to similarities n_results)) = true) ->
    search_outcome query n_results w [] w1
| Ranked query_vector similarities results w1 :
    indexed w = true ->
    dict_get cache_key_eqb (similarity_cache w) (md5 query, n_results) = None ->
    transform query w = (Normal query_vector, w1) ->
    f_eqb (norm query_vector) f_zero = false ->
    rank query_vector w1 = Normal similarities ->
    build_results (documents w1) (slice_to similarities n_results) = Normal results ->
    search_outcome query n_results w results
      (with_similarity_cache
         (evict_similarity
            (dict_set cache_key_eqb (similarity_cache w1) (md5 query, n_results) results))
         w1).

Lemma search_cases query n_results (w : World F) :
  search_outcome query n_results w
    (fst (search_similar_documents query n_results w))
    (snd (search_similar_documents query n_results w)).
Proof.
  unfold search_similar_documents.
  destruct (indexed w) eqn:Hidx; cbn [negb]; [|apply NotIndexed; exact Hidx].
  destruct (dict_get cache_key_eqb (similarity_cache w) (md5 query, n_results))
    as [cached|] eqn:Hc; [apply CacheHit; assumption|].
  destruct (transform query w) as [[query_vector|e] w1] eqn:Et.
  - destruct (f_eqb (norm query_vector) f_zero) eqn:Hz.
    + apply (NothingFound query n_results w (Normal query_vector) w1); try assumption.
      intros qv [= <-]. congruence.
    + destruct (rank query_vector w1) as [similarities|e] eqn:Er; cbn [bind].
      * destruct (build_results (documents w1) (slice_to similarities n_results))
          as [results|e] eqn:Eb; cbn [fst snd].
        -- apply (Ranked query n_results w query_vector similarities results w1);
             assumption.
        -- apply (NothingFound query n_results w (Normal query_vector) w1); try assumption.
           intros qv [= <-] _. rewrite Er. cbn [bind]. rewrite Eb. reflexivity.
      * apply (NothingFound query n_results w (Normal query_vector) w1); try assumption.
        intros qv [= <-] _. rewrite Er. reflexivity.
  - apply (NothingFound query n_results w (Raise e) w1); try assumption. discriminate.
Qed.
End SearchProperties.

Section RankingProperties.
Context {F : Type} `{PF : PyFloat F} `{PL : PyLog F} `{HS : Hashing}.

(** A result list as the search is to return it for [n_results]. *)
Definition well_ranked (n_results : Z) (results : list (SearchResult F)) : Prop :=
  StronglySorted (fun a b => f_ltb a b = false) (map similarity_score results)
  /\ Forall (fun r => f_ltb f_threshold (similarity_score r) = true) results
  /\ ((0 <= n_results)%Z -> (Z.of_nat (length results) <= n_results)%Z).

(** Every list in the similarity cache was once returned by a search
    with the [n_results] of its key. *)
Definition sim_cache_ok (w : World F) : Prop :=
  Forall (fun e => well_ranked (snd (fst e)) (snd e)) (similarity_cache w).

Lemma well_ranked_nil n : well_ranked n [].
Proof. repeat split; [constructor|constructor|cbn; lia]. Qed.

Lemma sim_cache_hit (cache : sim_cache) h n results :
  Forall (fun e => well_ranked (snd (fst e)) (snd e)) cache ->
  dict_get cache_key_eqb cache (h, n) = Some results ->
  well_ranked n results.
Proof.
  induction 1 as [|[[h' n'] r] cache He Hc IH]; cbn [dict_get]; [discriminate|].
  unfold cache_key_eqb at 1. cbn [fst snd].
  destruct (String.eqb h h' && (n =? n')%Z) eqn:E; [|exact IH].
  apply andb_true_iff in E as [_ E]. apply Z.eqb_eq in E. subst n'.
  intros [= <-]. exact He.
Qed.

Lemma sim_cache_set (cache : sim_cache) h n results :
  Forall (fun e => well_ranked (snd (fst e)) (snd e)) cache ->
  well_ranked n results ->
  Forall (fun e => well_ranked (snd (fst e)) (snd e))
    (dict_set cache_key_eqb cache (h, n) results).
Proof.
  intros Hc Hr. induction Hc as [|[[h' n'] r] cache He Hc IH]; cbn [dict_set].
  - constructor; [exact Hr|constructor].
  - unfold cache_key_eqb at 1. cbn [fst snd].
    destruct (String.eqb h h' && (n =? n')%Z) eqn:E.
    + apply andb_true_iff in E as [_ E]. apply Z.eqb_eq in E. subst n'.
      constructor; [exact Hr|exact Hc].
    + constructor; [exact He|exact IH].
Qed.

Lemma StronglySorted_map {A B : Type} (f : A -> B) (R : B -> B -> Prop) l :
  StronglySorted (fun a b => R (f a) (f b)) l -> StronglySorted R (map f l).
Proof.
  induction 1 as [|x l Hl IH Hx]; cbn [map]; constructor; [exact IH|].
  apply Forall_map. exact Hx.
Qed.

Lemma Forall2_Forall_r {A B : Type} (R : A -> B -> Prop) (P : A -> Prop) (Q : B -> Prop)
    l l' :
  (forall a b, R a b -> P a -> Q b) -> Forall2 R l l' -> Forall P l -> Forall Q l'.
Proof.
  intros HR. induction 1 as [|a b l l' Hab Hl IH]; intros HP; [constructor|].
  inversion HP; subst. constructor; [eapply HR; eassumption|apply IH; assumption].
Qed.

(** The ranking of one search, given a similarity cache that holds
    results of earlier searches. *)
Lemma search_ranked `{PO : !PyFloatOrder F} query n_results (w : World F) :
  sim_cache_ok w ->
  well_ranked n_results (fst (search_similar_documents query n_results w))
  /\ sim_cache_ok (snd (search_similar_documents query n_results w))
  /\ (dict_get cache_key_eqb (similarity_cache w) (md5 query, n_results) = None ->
      exists top,
        StronglySorted ranks_before top
        /\ Forall2 (result_of (documents w)) top
             (fst (search_similar_documents query n_results w))).
Proof.
  intros Hcache.
  destruct (search_cases query n_results w)
    as [Hidx | results Hidx Hhit | r w1 Hidx Hmiss Ht Hraise
        | query_vector similarities results w1 Hidx Hmiss Ht Hnz Hrank Hbuild].
  - split; [apply well_ranked_nil|]. split; [exact Hcache|].
    intros _. exists []. split; constructor.
  - split; [exact (sim_cache_hit _ _ _ _ Hcache Hhit)|]. split; [exact Hcache|].
    rewrite Hhit. discriminate.
  - split; [apply well_ranked_nil|]. split.
    + destruct (transform_frame query w) as [_ [Hsim _]]. rewrite Ht in Hsim.
      unfold sim_cache_ok. cbn [snd] in Hsim. rewrite Hsim. exact Hcache.
    + intros _. exists []. split; constructor.
  - destruct (transform_frame query w) as [Hsame [Hsim _]]. rewrite Ht in Hsame, Hsim.
    cbn [snd] in Hsame, Hsim.
    destruct Hsame as [_ [_ [_ [_ [_ [Hdocs _]]]]]].
    destruct (rank_spec _ _ _ Hrank) as [Habove [_ [candidates [-> Hnd]]]].
    assert (Hnum : Forall scored candidates).
    { apply (Permutation_Forall (sort_reverse_perm candidates)).
      revert Habove. apply Forall_impl. intros p [Hp _].
      exact (proj2 (f_ltb_number _ _ Hp)). }
    pose proof (sort_reverse_ranked candidates Hnum Hnd) as Hsorted.
    destruct (slice_to_firstn (sort_reverse candidates) n_results) as [k Hk].
    pose proof (build_results_spec _ _ _ Hbuild) as Hres.
    assert (Htop : StronglySorted ranks_before (slice_to (sort_reverse candidates) n_results)).
    { rewrite Hk. apply StronglySorted_firstn. exact Hsorted. }
    assert (Hwr : well_ranked n_results results).
    { split; [|split].
      - rewrite (result_scores _ _ _ Hres). apply StronglySorted_map.
        revert Htop. apply (StronglySorted_weaken _ _ (fun _ => True)).
        + intros a b _ _. apply ranks_before_score.
        + apply Forall_forall. trivial.
      - assert (Hlift : forall (a : F * nat) (b : SearchResult F),
                 result_of (documents w1) a b ->
                 f_ltb f_threshold (fst a) = true ->
                 f_ltb f_threshold (similarity_score b) = true).
        { intros a b [d [_ ->]] Ha. exact Ha. }
        apply (Forall2_Forall_r _ _ _ _ _ Hlift Hres).
        rewrite Hk. apply firstn_Forall. revert Habove. apply Forall_impl.
        intros p [Hp _]. exact Hp.
      - intros Hn. rewrite <- (Forall2_length_eq _ _ _ Hres).
        apply slice_to_length. exact Hn. }
    split; [exact Hwr|]. split.
    + unfold sim_cache_ok. cbn [similarity_cache with_similarity_cache].
      unfold evict_similarity.
      assert (Hset : Forall (fun e => well_ranked (snd (fst e)) (snd e))
                       (dict_set cache_key_eqb (similarity_cache w1)
                          (md5 query, n_results) results)).
      { apply sim_cache_set; [rewrite Hsim; exact Hcache|exact Hwr]. }
      destruct (500 <? _); [apply skipn_Forall|]; exact Hset.
    + intros _. exists (slice_to (sort_reverse candidates) n_results).
      split; [exact Htop|]. rewrite <- Hdocs. exact Hres.
Qed.

(** C7, amended: a search on an engine that is not indexed returns the
    empty list; so does a search on an indexed engine when the similarity
    cache holds no entry for the query and [n_results] and the vector
    that [transform] returns for the query has norm zero.  Both return;
    neither raises. *)
Theorem search_returns_empty query n_results (w : World F) :
  (indexed w = false -> search_similar_documents query n_results w = ([], w))
  /\ (indexed w = true ->
      dict_get cache_key_eqb (similarity_cache w) (md5 query, n_results) = None ->
      forall query_vector,
        fst (transform query w) = Normal query_vector ->
        f_eqb (norm query_vector) f_zero = true ->
        search_similar_documents query n_results w = ([], snd (transform query w))).
Proof.
  unfold search_similar_documents. split.
  - intros ->. reflexivity.
  - intros -> -> query_vector Hv Hz. cbn [negb].
    destruct (transform query w) as [r w1]. cbn [fst snd] in *. subst r.
    rewrite Hz. reflexivity.
Qed.

(** *** After a successful [index_documents] *)

(** The states an engine goes through while it answers queries. *)
Inductive served (w : World F) : World F -> Prop :=
| served_now : served w w
| served_search w1 query n_results :
    served w w1 -> served w (snd (search_similar_documents query n_results w1))
| served_clear w1 :
    served w w1 -> served w (clear_cache w1).

Lemma search_same_index query n_results (w : World F) :
  same_index w (snd (search_similar_documents query n_results w)).
Proof.
  destruct (search_cases query n_results w)
    as [Hidx | results Hidx Hhit | r w1 Hidx Hmiss Ht Hraise
        | query_vector similarities results w1 Hidx Hmiss Ht Hnz Hrank Hbuild];
    try apply same_index_refl.
  - destruct (transform_frame query w) as [Hsame _]. rewrite Ht in Hsame. exact Hsame.
  - destruct (transform_frame query w) as [Hsame _]. rewrite Ht in Hsame. exact Hsame.
Qed.

Lemma served_same_index (w w' : World F) : served w w' -> same_index w w'.
Proof.
  induction 1 as [|w1 query n_results _ IH|w1 _ IH]; [apply same_index_refl| |].
  - apply (same_index_trans _ _ _ IH). apply search_same_index.
  - apply (same_index_trans _ _ _ IH). repeat split.
Qed.

Lemma rank_same_index query_vector (w w' : World F) :
  same_index w w' -> rank query_vector w' = rank query_vector w.
Proof.
  intros [_ [_ [_ [_ [Hv [_ [Hn _]]]]]]]. unfold rank. rewrite Hv, Hn. reflexivity.
Qed.

(** *** The states of an engine *)

(** The states an engine reaches from its construction, over any
    database and over a model file that is absent or was written by
    [fit], through calls of its three operations. *)
Inductive reachable : World F -> Prop :=
| reach_new db file :
    match file with Some f => fitted f | None => True end ->
    reachable (new_engine db file)
| reach_index input w :
    reachable w -> reachable (snd (index_documents input w))
| reach_search query n_results w :
    reachable w -> reachable (snd (search_similar_documents query n_results w))
| reach_clear w :
    reachable w -> reachable (clear_cache w).

Lemma index_documents_keeps_files input (w : World F) :
  lru_ok (tokenize_lru w) -> model_file_sound w ->
  lru_ok (tokenize_lru (snd (index_documents input w)))
  /\ model_file_sound (snd (index_documents input w))
  /\ similarity_cache (snd (index_documents input w)) = similarity_cache w.
Proof.
  intros Hlru Hsound. unfold index_documents. cbn [_check_documents_cached].
  destruct (index_all input (db_delete_all (conn w), [], [], 0))
    as [[[db texts] docs] doc_id].
  destruct texts as [|text texts]; [repeat split; assumption|].
  pose proof (fit_keeps_invariants (text :: texts)
                (with_documents docs (with_conn (db_commit db) w)) Hlru Hsound) as [H1 H2].
  pose proof (fit_frame_any (text :: texts)
                (with_documents docs (with_conn (db_commit db) w)))
    as [_ [_ [_ [Hsim _]]]].
  destruct (fit (text :: texts) (with_documents docs (with_conn (db_commit db) w)))
    as [[[]|e] w2]; cbn [snd] in *; (split; [exact H1|split; [exact H2|exact Hsim]]).
Qed.

Lemma search_keeps_files query n_results (w : World F) :
  lru_ok (tokenize_lru w) -> model_file_sound w ->
  lru_ok (tokenize_lru (snd (search_similar_documents query n_results w)))
  /\ model_file_sound (snd (search_similar_documents query n_results w)).
Proof.
  intros Hlru Hsound.
  pose proof (transform_keeps_invariants query w Hlru Hsound) as Ht.
  destruct (search_cases query n_results w)
    as [Hidx | results Hidx Hhit | r w1 Hidx Hmiss Et Hraise
        | query_vector similarities results w1 Hidx Hmiss Et Hnz Hrank Hbuild];
    try (split; assumption); rewrite Et in Ht; exact Ht.
Qed.

Lemma reachable_files_ok (w : World F) :
  reachable w -> lru_ok (tokenize_lru w) /\ model_file_sound w.
Proof.
  induction 1 as [db file Hfile|input w _ [Hl Hs]|query n_results w _ [Hl Hs]|w _ IH].
  - split; [constructor|exact Hfile].
  - destruct (index_documents_keeps_files input w Hl Hs) as [H1 [H2 _]]. split; assumption.
  - apply search_keeps_files; assumption.
  - exact IH.
Qed.

Lemma reachable_cache_ok `{PO : !PyFloatOrder F} (w : World F) :
  reachable w -> sim_cache_ok w.
Proof.
  induction 1 as [db file Hfile|input w Hw IH|query n_results w _ IH|w _ IH].
  - constructor.
  - destruct (reachable_files_ok w Hw) as [Hl Hs].
    destruct (index_documents_keeps_files input w Hl Hs) as [_ [_ Hsim]].
    unfold sim_cache_ok. rewrite Hsim. exact IH.
  - apply (search_ranked query n_results w IH).
  - constructor.
Qed.

(** C1, amended: in every state of an engine, on binary64 floats as on
    any float type whose [<] and [==] order the values that are not NaN
    (instances [Binary64Order], [RationalOrder]), the list that
    [search_similar_documents] returns is sorted by score in descending
    order, holds only scores above 0.01, and has at most [n_results]
    entries when [n_results] is not negative.  When the answer is not
    taken from the similarity cache, it is built from candidates in
    strictly descending order of (score, index): of two chunks with
    equal scores the one that comes LATER in the corpus is ranked
    first. *)
Theorem search_results_ranked `{PO : !PyFloatOrder F} query n_results (w : World F) :
  reachable w ->
  well_ranked n_results (fst (search_similar_documents query n_results w))
  /\ (dict_get cache_key_eqb (similarity_cache w) (md5 query, n_results) = None ->
      exists top,
        StronglySorted ranks_before top
        /\ Forall2 (result_of (documents w)) top
             (fst (search_similar_documents query n_results w))).
Proof.
  intros Hw.
  destruct (search_ranked query n_results w (reachable_cache_ok w Hw)) as [H1 [_ H2]].
  split; assumption.
Qed.

(** C10: after a successful [index_documents] on an engine, and for as
    long as the engine then only answers queries and clears its caches,
    the list of chunks, the list of vectors and the list of norms have
    one length, and every index that the ranking of a search produces is
    an index of the list of chunks, so that building the results does not
    raise.  (It is assumed that no other corpus than the one in the model
    file has the md5 digest of the chunk texts.) *)
Theorem index_aligned_search_in_bounds input (w w' w'' : World F) :
  reachable w ->
  no_collision (chunk_texts input) w ->
  index_documents input w = (true, w') ->
  served w' w'' ->
  length (documents w'') = length (tf_idf_vectors (tfidf w''))
  /\ length (doc_norms w'') = length (tf_idf_vectors (tfidf w''))
  /\ forall query query_vector similarities,
       let w1 := snd (transform query w'') in
       rank query_vector w1 = Normal similarities ->
       Forall (fun p => snd p < length (documents w1)) similarities
       /\ forall n_results,
            raised (build_results (documents w1) (slice_to similarities n_results)) = false.
Proof.
  intros Hw Hcoll Hindex Hserved.
  destruct (reachable_files_ok w Hw) as [Hlru Hsound].
  pose proof (model_file_ok_intro _ _ Hsound Hcoll) as Hfile.
  destruct (index_documents_aligned input w w' Hlru Hfile Hindex) as [[Hd Hn] _].
  pose proof (served_same_index _ _ Hserved) as Hsame.
  assert (Hd'' : length (documents w'') = length (tf_idf_vectors (tfidf w''))).
  { destruct Hsame as [_ [_ [_ [_ [Hv [Hdocs _]]]]]]. rewrite Hv, Hdocs. exact Hd. }
  assert (Hn'' : length (doc_norms w'') = length (tf_idf_vectors (tfidf w''))).
  { destruct Hsame as [_ [_ [_ [_ [Hv [_ [Hnorms _]]]]]]]. rewrite Hv, Hnorms. exact Hn. }
  split; [exact Hd''|]. split; [exact Hn''|].
  intros query query_vector similarities w1 Hrank.
  destruct (transform_frame query w'') as [Hsame1 _]. fold w1 in Hsame1.
  assert (Hbound : Forall (fun p : F * nat => snd p < length (documents w1)) similarities).
  { destruct (rank_spec _ _ _ Hrank) as [Habove _].
    revert Habove. apply Forall_impl. intros p [_ [Hp _]].
    destruct Hsame1 as [_ [_ [_ [_ [Hv [Hdocs _]]]]]]. rewrite Hdocs, Hd''. rewrite <- Hv.
    exact Hp. }
  split; [exact Hbound|].
  intros n_results. apply build_results_in_bounds.
  destruct (slice_to_firstn similarities n_results) as [k ->].
  apply firstn_Forall. exact Hbound.
Qed.

(** *** clear_cache *)

(** [clear_cache] empties three caches and leaves everything else,
    the memo table of [tokenize] included, as it was. *)
Lemma clear_cache_frame (w : World F) :
  response_cache (clear_cache w) = []
  /\ similarity_cache (clear_cache w) = []
  /\ _vector_cache (tfidf (clear_cache w)) = []
  /\ tokenize_lru (clear_cache w) = tokenize_lru w
  /\ _tokenize_cache (tfidf (clear_cache w)) = _tokenize_cache (tfidf w)
  /\ same_index w (clear_cache w).
Proof. repeat split. Qed.
End RankingProperties.

(* ------------------------------------------------------------------ *)
(** ** The rational model is ordered *)

Lemma Q_ltb_iff (x y : Q) : negb (Qle_bool y x) = true <-> (x < y)%Q.
Proof.
  rewrite negb_true_iff, <- not_true_iff_false, Qle_bool_iff.
  split; [apply Qnot_le_lt|apply Qlt_not_le].
Qed.

Lemma Q_ltb_false_iff (x y : Q) : negb (Qle_bool y x) = false <-> (y <= x)%Q.
Proof. rewrite negb_false_iff. apply Qle_bool_iff. Qed.

Lemma Q_eqb_false_iff (x y : Q) : Qeq_bool x y = false <-> ~ (x == y)%Q.
Proof. rewrite <- not_true_iff_false, Qeq_bool_iff. reflexivity. Qed.

#[export] Instance RationalOrder : PyFloatOrder Q.
Proof.
  constructor; unfold is_number; cbn [f_eqb f_ltb Rational].
  - intros x y. destruct (Qeq_bool y x) eqn:E.
    + apply Qeq_bool_iff. apply Qeq_bool_iff in E. symmetry. exact E.
    + apply Q_eqb_false_iff. apply Q_eqb_false_iff in E. intros H. apply E. symmetry. exact H.
  - intros x y z Hxy Hyz. apply Qeq_bool_iff. apply Qeq_bool_iff in Hxy, Hyz.
    rewrite Hxy. exact Hyz.
  - intros x y Hlt. apply Q_ltb_iff in Hlt. apply Q_eqb_false_iff. intros E.
    rewrite E in Hlt. exact (Qlt_irrefl _ Hlt).
  - intros x y z Hxy Hyz. apply Q_ltb_iff. apply Q_ltb_iff in Hxy, Hyz.
    exact (Qlt_trans _ _ _ Hxy Hyz).
  - intros x y Hxy. apply Q_ltb_iff in Hxy. apply Q_ltb_false_iff. apply Qlt_le_weak.
    exact Hxy.
  - intros x y _. split; apply Qeq_bool_iff; reflexivity.
  - intros x y _ _ Hxy Hyx. apply Q_ltb_false_iff in Hxy, Hyx. apply Qeq_bool_iff.
    apply Qle_antisym; assumption.
  - intros x y z E. apply Qeq_bool_iff in E. rewrite E. reflexivity.
  - intros x y z E. apply Qeq_bool_iff in E. rewrite E. reflexivity.
Qed.

(* ------------------------------------------------------------------ *)
(** ** Binary64 is ordered

    [==] and [<] on the floats of the kernel are those of IEEE 754
    ([eqb_spec], [ltb_spec]): on the floats that are not NaN, the
    comparison by sign, exponent and mantissa. *)

Ltac sf_compare :=
  repeat match goal with
         | |- context [(?a ?= ?b)%Z] => destruct (Z.compare_spec a b)
         | H : context [(?a ?= ?b)%Z] |- _ => destruct (Z.compare_spec a b)
         | |- context [Pos.compare_cont Eq ?a ?b] =>
             change (Pos.compare_cont Eq a b) with (Pos.compare a b);
             destruct (Pos.compare_spec a b)
         | H : context [Pos.compare_cont Eq ?a ?b] |- _ =>
             change (Pos.compare_cont Eq a b) with (Pos.compare a b) in H;
             destruct (Pos.compare_spec a b)
         end;
  subst; cbn [CompOpp] in *; try discriminate; try reflexivity; try lia.

Ltac sf_destruct x :=
  destruct x as [[|]|[|]| |[|] ? ?].

Lemma SFeqb_sym x y : SFeqb x y = SFeqb y x.
Proof.
  unfold SFeqb. sf_destruct x; sf_destruct y; cbn [SFcompare]; try reflexivity; sf_compare.
Qed.

Lemma SFltb_asym x y : SFltb x y = true -> SFltb y x = false.
Proof.
  unfold SFltb. sf_destruct x; sf_destruct y; cbn [SFcompare]; try reflexivity;
    try discriminate; intros H; sf_compare.
Qed.

Lemma SFltb_eqb x y : SFltb x y = true -> SFeqb x y = false.
Proof.
  unfold SFltb, SFeqb. destruct (SFcompare x y) as [[| |]|]; try discriminate; reflexivity.
Qed.

Lemma SFltb_number x y : SFltb x y = true -> SFeqb x x = true /\ SFeqb y y = true.
Proof.
  unfold SFltb, SFeqb. sf_destruct x; sf_destruct y; cbn [SFcompare]; try discriminate;
    intros _; rewrite ?Z.compare_refl, ?Pos.compare_cont_refl; split; reflexivity.
Qed.

Lemma SFltb_total x y :
  SFeqb x x = true -> SFeqb y y = true ->
  SFltb x y = false -> SFltb y x = false -> SFeqb x y = true.
Proof.
  unfold SFltb, SFeqb. sf_destruct x; sf_destruct y; cbn [SFcompare]; try discriminate;
    try reflexivity; intros _ _ H1 H2; sf_compare.
Qed.

Lemma SFeqb_trans x y z : SFeqb x y = true -> SFeqb y z = true -> SFeqb x z = true.
Proof.
  unfold SFeqb. sf_destruct x; sf_destruct y; cbn [SFcompare]; try discriminate;
    sf_destruct z; cbn [SFcompare]; try discriminate; try reflexivity;
    intros H1 H2; sf_compare.
Qed.

Lemma SFltb_trans x y z : SFltb x y = true -> SFltb y z = true -> SFltb x z = true.
Proof.
  unfold SFltb. sf_destruct x; sf_destruct y; cbn [SFcompare]; try discriminate;
    sf_destruct z; cbn [SFcompare]; try discriminate; try reflexivity;
    intros H1 H2; sf_compare.
Qed.

Lemma SFltb_eqb_l x y z : SFeqb x y = true -> SFltb x z = SFltb y z.
Proof.
  unfold SFltb, SFeqb. sf_destruct x; sf_destruct y; cbn [SFcompare]; try discriminate;
    sf_destruct z; cbn [SFcompare]; try reflexivity; intros H1; sf_compare.
Qed.

Lemma SFltb_eqb_r x y z : SFeqb x y = true -> SFltb z x = SFltb z y.
Proof.
  unfold SFltb, SFeqb. sf_destruct x; sf_destruct y; cbn [SFcompare]; try discriminate;
    sf_destruct z; cbn [SFcompare]; try reflexivity; intros H1; sf_compare.
Qed.

#[export] Instance Binary64Order : PyFloatOrder float.
Proof.
  constructor; unfold is_number; cbn [f_eqb f_ltb Binary64]; intros;
    rewrite ?eqb_spec, ?ltb_spec in *.
  - apply SFeqb_sym.
  - eapply SFeqb_trans; eassumption.
  - apply SFltb_eqb. assumption.
  - eapply SFltb_trans; eassumption.
  - apply SFltb_asym. assumption.
  - eapply SFltb_number. eassumption.
  - apply SFltb_total; assumption.
  - apply SFltb_eqb_l. assumption.
  - apply SFltb_eqb_r. assumption.
Qed.

(* ------------------------------------------------------------------ *)
(** ** Scenarios

    Runs of the engine in the rational model with identity hashing. *)

Definition text_doc (name text : string) : Document :=
  {| doc_file_name := name; doc_file_path := "/docs/" ++ name; doc_title := name;
     doc_content := text; doc_content_type := "text" |}.

(** Each conjunct holds by evaluation. *)
Ltac by_evaluation :=
  lazymatch goal with
  | |- _ /\ _ => split; [vm_compute; reflexivity|by_evaluation]
  | _ => vm_compute; reflexivity
  end.

(** A fresh engine with nothing on disk. *)
Definition fresh : World Q := new_engine empty_db None.

(** The two documents of the end-to-end scenario of the specification. *)
Definition cat_and_dogs : World Q :=
  snd (index_documents
         [text_doc "a.txt" "The cat sat on the mat. The cat was happy.";
          text_doc "b.txt" "Dogs bark loudly at night."] fresh).

(** Two chunks with one text, and a third. *)
Definition twins : World Q :=
  snd (index_documents
         [text_doc "first.txt" "cat food";
          text_doc "second.txt" "cat food";
          text_doc "third.txt" "dogs bark"] fresh).

(** The first engine after one query. *)
Definition queried : World Q :=
  snd (search_similar_documents "cat happy" 5 cat_and_dogs).

(** The same three documents on binary64 floats. *)
Definition twins64 : World float :=
  snd (index_documents
         [text_doc "first.txt" "cat food";
          text_doc "second.txt" "cat food";
          text_doc "third.txt" "dogs bark"] (new_engine empty_db None)).

(** C1 (witness): a search on [twins], in exact arithmetic and on
    binary64 floats. *)
Lemma search_results_ranked_witness :
  (well_ranked 5 (fst (search_similar_documents "cat" 5 twins))
   /\ (dict_get cache_key_eqb (similarity_cache twins) (md5 "cat", 5%Z) = None ->
       exists top,
         StronglySorted ranks_before top
         /\ Forall2 (result_of (documents twins)) top
              (fst (search_similar_documents "cat" 5 twins))))
  /\ (well_ranked 5 (fst (search_similar_documents "cat" 5 twins64))
      /\ (dict_get cache_key_eqb (similarity_cache twins64) (md5 "cat", 5%Z) = None ->
          exists top,
            StronglySorted ranks_before top
            /\ Forall2 (result_of (documents twins64)) top
                 (fst (search_similar_documents "cat" 5 twins64)))).
Proof.
  split.
  - exact (search_results_ranked "cat" 5 twins
             (reach_index _ _ (reach_new empty_db None I))).
  - exact (search_results_ranked "cat" 5 twins64
             (reach_index _ _ (reach_new empty_db None I))).
Defined.

(** C1, the claim as stated: "first.txt" and "second.txt" hold the same
    text and score the same for the query "cat"; the chunk of
    "second.txt", which comes later in the corpus, is ranked first.  And
    with [n_results = -1] the slice [similarities[:-1]] leaves one
    result, more than [n_results]. *)
Lemma search_tie_ranks_later_chunk_first :
  map file_name (documents twins) = ["first.txt"; "second.txt"; "third.txt"]
  /\ (exists r1 r2,
        fst (search_similar_documents "cat" 5 twins) = [r1; r2]
        /\ res_file_name r1 = "second.txt" /\ res_file_name r2 = "first.txt"
        /\ f_eqb (similarity_score r1) (similarity_score r2) = true)
  /\ length (fst (search_similar_documents "cat" (-1) twins)) = 1.
Proof.
  split; [reflexivity|]. split; [|reflexivity].
  eexists. eexists. split; [vm_compute; reflexivity|]. repeat split.
Qed.

(** A document of 1001 spaces: longer than a chunk, and blank. *)
Definition blank_doc : Document :=
  text_doc "blank.txt" (String.concat "" (repeat " " 1001)).

Lemma index_without_chunks_witness :
  exists db,
    index_documents [blank_doc] cat_and_dogs
    = (false, with_documents [] (with_conn db cat_and_dogs))
    /\ table db = [] /\ committed db = [].
Proof. apply (index_without_chunks [blank_doc] cat_and_dogs). vm_compute. reflexivity. Defined.

(** C3, the claim as stated: the engine holds two chunks, in the table
    and in memory, and answers the query "cat happy"; after
    [index_documents([])] has returned False the committed table and the
    in-memory list are empty, the engine still counts as indexed, and the
    same query finds nothing. *)
Lemma failed_index_wipes_prior_state :
  fst (index_documents [] cat_and_dogs) = false
  /\ length (committed (conn cat_and_dogs)) = 2
  /\ committed (conn (snd (index_documents [] cat_and_dogs))) = []
  /\ length (documents cat_and_dogs) = 2
  /\ documents (snd (index_documents [] cat_and_dogs)) = []
  /\ indexed (snd (index_documents [] cat_and_dogs)) = true
  /\ map res_file_name (fst (search_similar_documents "cat happy" 5 cat_and_dogs))
     = ["a.txt"]
  /\ fst (search_similar_documents "cat happy" 5 (snd (index_documents [] cat_and_dogs)))
     = [].
Proof. by_evaluation. Qed.

(** C4 on the engine [queried]: [clear_cache] empties the response, the
    similarity and the vector cache, and the memo table of [tokenize]
    still holds the three texts tokenized so far. *)
Theorem clear_cache_keeps_tokenize_memo :
  length (similarity_cache queried) = 1
  /\ length (_vector_cache (tfidf queried)) = 1
  /\ similarity_cache (clear_cache queried) = []
  /\ _vector_cache (tfidf (clear_cache queried)) = []
  /\ response_cache (clear_cache queried) = []
  /\ map fst (tokenize_lru (clear_cache queried))
     = ["cat happy"; "Dogs bark loudly at night.";
        "The cat sat on the mat. The cat was happy."]
  /\ dict_get String.eqb (tokenize_lru (clear_cache queried)) "cat happy"
     = Some ["cat"; "happy"].
Proof. by_evaluation. Qed.

(** Decimal strings: texts without any token. *)
Definition number (n : nat) : string := NilEmpty.string_of_uint (Nat.to_uint n).

(** [twins] after the query "cat", a new index without the word "cat",
    and a thousand queries "0" to "999", which push the vector of "cat"
    out of the vector cache. *)
Definition after_cat : World Q := snd (search_similar_documents "cat" 5 twins).

Definition birds : World Q :=
  snd (index_documents
         [text_doc "x.txt" "birds sing"; text_doc "y.txt" "dogs bark"] after_cat).

Definition flooded : World Q :=
  fold_left (fun w n => snd (search_similar_documents (number n) 5 w)) (seq 0 1000) birds.

Lemma tuple4_eq {A B C D : Type} (a a' : A) (b b' : B) (c c' : C) (d d' : D) :
  (a, b, c, d) = (a', b', c', d') -> a = a' /\ b = b' /\ c = c' /\ d = d'.
Proof. intros [= -> -> -> ->]. repeat split. Qed.

(** What the engine [flooded] holds and answers, by one evaluation. *)
Lemma flooded_run :
  (indexed flooded,
   dict_mem String.eqb (vocabulary (tfidf flooded)) "cat",
   fst (transform "cat" flooded),
   map res_file_name (fst (search_similar_documents "cat" 5 flooded)))
  = (true, false, Normal [0; 0; 0; 0]%Q, ["second.txt"; "first.txt"]).
Proof. vm_compute. reflexivity. Qed.

(** C7, the claim as stated, on the engine [flooded]: "cat" is not in the
    vocabulary, [transform] returns the zero vector for it, and the
    search returns the two results cached before the new index. *)
Lemma search_answers_unknown_query_from_cache :
  indexed flooded = true
  /\ dict_mem String.eqb (vocabulary (tfidf flooded)) "cat" = false
  /\ fst (transform "cat" flooded) = Normal [0; 0; 0; 0]%Q
  /\ f_eqb (norm [0; 0; 0; 0]%Q) f_zero = true
  /\ map res_file_name (fst (search_similar_documents "cat" 5 flooded))
     = ["second.txt"; "first.txt"].
Proof.
  destruct (tuple4_eq _ _ _ _ _ _ _ _ flooded_run) as [H1 [H2 [H3 H4]]].
  split; [exact H1|]. split; [exact H2|]. split; [exact H3|].
  split; [vm_compute; reflexivity|exact H4].
Qed.

Lemma search_returns_empty_witness :
  search_similar_documents "123 a" 5 fresh = ([], fresh)
  /\ search_similar_documents "123 a" 5 twins = ([], snd (transform "123 a" twins)).
Proof.
  destruct (search_returns_empty "123 a" 5 fresh) as [Hnot _].
  destruct (search_returns_empty "123 a" 5 twins) as [_ Hzero].
  split; [apply Hnot; reflexivity|].
  apply (Hzero eq_refl eq_refl [0; 0; 0; 0]%Q); vm_compute; reflexivity.
Defined.

(** [twins] after the query "birds sing", then a new index that holds
    this very text. *)
Definition reindexed : World Q :=
  snd (index_documents
         [text_doc "x.txt" "birds sing"; text_doc "y.txt" "dogs bark"]
         (snd (search_similar_documents "birds sing" 5 twins))).

Definition is_zero_vector (vector : list Q) : bool :=
  forallb (fun x => f_eqb x f_zero) vector.

(** C8, the claim as stated, on the engine [reindexed]: "birds sing" is
    the first text of the fitted corpus and its stored vector is not
    zero, yet [transform] returns the zero vector that the earlier query
    left in the vector cache. *)
Lemma transform_returns_stale_vector :
  tfidf_documents (tfidf reindexed) = ["birds sing"; "dogs bark"]
  /\ (exists stored,
        nth_error (tf_idf_vectors (tfidf reindexed)) 0 = Some stored
        /\ is_zero_vector stored = false)
  /\ (exists vector,
        fst (transform "birds sing" reindexed) = Normal vector
        /\ is_zero_vector vector = true).
Proof.
  split; [reflexivity|].
  split; eexists; (split; [vm_compute; reflexivity|reflexivity]).
Qed.

Lemma fit_transform_stored_vector_witness :
  exists vector,
    nth_error (tf_idf_vectors (tfidf (snd (fit ["birds sing"; "dogs bark"] fresh)))) 0
    = Some vector
    /\ fst (transform "birds sing" (snd (fit ["birds sing"; "dogs bark"] fresh)))
       = Normal vector.
Proof.
  apply (fit_transform_stored_vector ["birds sing"; "dogs bark"] fresh
           (snd (fit ["birds sing"; "dogs bark"] fresh)) 0 "birds sing").
  - constructor.
  - exact I.
  - vm_compute. reflexivity.
  - reflexivity.
  - reflexivity.
Defined.

Lemma index_aligned_search_in_bounds_witness :
  length (documents queried) = length (tf_idf_vectors (tfidf queried))
  /\ length (doc_norms queried) = length (tf_idf_vectors (tfidf queried))
  /\ forall query query_vector similarities,
       let w1 := snd (transform query queried) in
       rank query_vector w1 = Normal similarities ->
       Forall (fun p => snd p < length (documents w1)) similarities
       /\ forall n_results,
            raised (build_results (documents w1) (slice_to similarities n_results)) = false.
Proof.
  apply (index_aligned_search_in_bounds
           [text_doc "a.txt" "The cat sat on the mat. The cat was happy.";
            text_doc "b.txt" "Dogs bark loudly at night."]
           fresh cat_and_dogs queried).
  - exact (reach_new empty_db None I).
  - exact I.
  - vm_compute. reflexivity.
  - apply served_search. apply served_now.
Defined.
